(** * amh_dash: the asset dashboard script [src/app.py]

    A shallow embedding of the script's text clean-up pass, its ZIP-code
    normalisation, its calculation engine and its session-state logic,
    followed by the properties established of them.

    Python values are modelled as follows.
    - [str] is a sequence of Unicode code points ([list N]).  The character
      classes of [re] and [str.strip] are written out for the ASCII range;
      above it they are read from a [unicode_db], which stands for CPython's
      Unicode database and is a parameter of every definition that needs it.
    - [float] is IEEE 754 binary64, i.e. Rocq's primitive [float]; true
      division raises [ZeroDivisionError] on a zero divisor.
    - a script run either reaches its end, stops in [st.rerun()], or raises. *)

From Stdlib Require Import String Ascii.
From Stdlib Require Import List Bool NArith ZArith Lia.
From Stdlib Require Import Floats.PrimFloat.
From Stdlib Require Floats.FloatAxioms Floats.FloatOps Floats.SpecFloat.
Import ListNotations.

Set Implicit Arguments.

(* ================================================================== *)
(** * Part I: the embedding *)
(* ================================================================== *)

(** ** Python strings *)

Module PyStr.
Local Open Scope N_scope.

Definition char := N.
Definition py_str := list char.

(** The code point of an ASCII character, and the [str] of an ASCII literal. *)
Definition cp (a : ascii) : char := N_of_ascii a.
Definition of_string (s : string) : py_str := map cp (list_ascii_of_string s).

Definition space : char := 32.

Definition in_range (lo hi c : char) : bool := (lo <=? c) && (c <=? hi).

(** What CPython's Unicode database says of a code point above the ASCII
    range: [str.isspace], [str.isalnum], [str.isdecimal]. *)
Record unicode_db := {
  uni_isspace : char -> bool;
  uni_isalnum : char -> bool;
  uni_isdecimal : char -> bool
}.

Section Classes.
Variable U : unicode_db.

(** [\s], also the characters removed by [str.strip()]: for ASCII these are
    TAB..CR, FS..US and the space. *)
Definition is_space (c : char) : bool :=
  if c <? 128 then in_range 9 13 c || in_range 28 32 c
  else uni_isspace U c.

(** [\d] *)
Definition is_digit (c : char) : bool :=
  if c <? 128 then in_range 48 57 c else uni_isdecimal U c.

Definition is_alnum (c : char) : bool :=
  if c <? 128 then in_range 48 57 c || in_range 65 90 c || in_range 97 122 c
  else uni_isalnum U c.

(** [\w]: alphanumeric or the underscore. *)
Definition is_word (c : char) : bool := is_alnum c || (c =? 95).

End Classes.

(** [[a-z]] and [[A-Z]] (no flag is given to [re.sub], so both are ASCII). *)
Definition is_lower (c : char) : bool := in_range 97 122 c.
Definition is_upper (c : char) : bool := in_range 65 90 c.

(** [[.,!?]], [\.] and [[\(\)]]. *)
Definition is_punct (c : char) : bool :=
  (c =? 46) || (c =? 44) || (c =? 33) || (c =? 63).
Definition is_period (c : char) : bool := c =? 46.
Definition is_paren (c : char) : bool := (c =? 40) || (c =? 41).

End PyStr.
Import PyStr.

(** ** The text clean-up pass (app.py, lines 11-21) *)

Module Cleanup.

(** [re.sub(r"(P)(Q)", r"\1 \2", s)] for two single-character classes [P] and
    [Q]: the string is scanned from the left, a match takes two characters and
    is replaced by the two with a space in between, and the scan resumes after
    the match, so matches never overlap. *)
Fixpoint re_sub2 (p q : char -> bool) (s : py_str) : py_str :=
  match s with
  | a :: ((b :: t) as rest) =>
      if p a && q b then a :: space :: b :: re_sub2 p q t
      else a :: re_sub2 p q rest
  | _ => s
  end.

Section Rules.
Variable U : unicode_db.

(** line 13: [([.,!?])([^\s])] *)
Definition rule_punct : py_str -> py_str :=
  re_sub2 is_punct (fun c => negb (is_space U c)).

(** line 15: [(\d|\w)([\(\)])] *)
Definition rule_word_paren : py_str -> py_str :=
  re_sub2 (fun c => is_digit U c || is_word U c) is_paren.

(** line 16: [([\(\)])(\d|\w)] *)
Definition rule_paren_word : py_str -> py_str :=
  re_sub2 is_paren (fun c => is_digit U c || is_word U c).

(** line 18: [([a-z])([A-Z])] *)
Definition rule_lower_upper : py_str -> py_str :=
  re_sub2 is_lower is_upper.

(** line 20: [(\.)([A-Z])] *)
Definition rule_period_upper : py_str -> py_str :=
  re_sub2 is_period is_upper.

(** The second rule of the specification is the two parenthesis
    substitutions, one after the other. *)
Definition rule_parens (s : py_str) : py_str :=
  rule_paren_word (rule_word_paren s).

Definition clean_response_text (text : py_str) : py_str :=
  let text := rule_punct text in
  let text := rule_word_paren text in
  let text := rule_paren_word text in
  let text := rule_lower_upper text in
  let text := rule_period_upper text in
  text.

End Rules.

(** [t] is [s] with space characters inserted, and nothing else changed. *)
Inductive spaced : py_str -> py_str -> Prop :=
| spaced_nil : spaced [] []
| spaced_keep c s t : spaced s t -> spaced (c :: s) (c :: t)
| spaced_insert s t : spaced s t -> spaced s (space :: t).

(** The characters of a string other than the space, in order. *)
Definition non_spaces (s : py_str) : py_str :=
  filter (fun c => negb (c =? space)%N) s.

(** No position of [s] matches [(P)(Q)]. *)
Fixpoint no_match (p q : char -> bool) (s : py_str) : bool :=
  match s with
  | a :: ((b :: _) as rest) => negb (p a && q b) && no_match p q rest
  | _ => true
  end.

End Cleanup.
Import Cleanup.

(** ** Python dictionaries with string keys, in insertion order *)

Module PyDict.

Fixpoint str_eqb (a b : py_str) : bool :=
  match a, b with
  | [], [] => true
  | x :: a', y :: b' => (x =? y)%N && str_eqb a' b'
  | _, _ => false
  end.

Section Dict.
Variable V : Type.

Definition dict := list (py_str * V).

(** [d.get(k)] *)
Fixpoint dict_get (d : dict) (k : py_str) : option V :=
  match d with
  | [] => None
  | (k', v) :: t => if str_eqb k' k then Some v else dict_get t k
  end.

(** [d[k] = v]: an existing key keeps its place, a new one goes last. *)
Fixpoint dict_set (d : dict) (k : py_str) (v : V) : dict :=
  match d with
  | [] => [(k, v)]
  | (k', v') :: t =>
      if str_eqb k' k then (k', v) :: t else (k', v') :: dict_set t k v
  end.

Definition dict_keys (d : dict) : list py_str := map fst d.

(** The dictionary with the same keys and [f] applied to each value. *)
Definition dict_map {W} (f : V -> W) (d : dict) : list (py_str * W) :=
  map (fun kv => (fst kv, f (snd kv))) d.

(** [dict(zip(keys, values))] *)
Definition dict_of_pairs (kvs : list (py_str * V)) : dict :=
  fold_left (fun d kv => dict_set d (fst kv) (snd kv)) kvs [].

(** [a == b] on dictionaries, as CPython's [dict_equal] computes it: the
    sizes agree and every key of [a] is in [b] with an equal value, values
    being compared by [value_eq]. *)
Variable value_eq : V -> V -> bool.

Definition dict_eq (a b : dict) : bool :=
  (length a =? length b)%nat
  && forallb (fun kv => match dict_get b (fst kv) with
                        | Some w => value_eq (snd kv) w
                        | None => false
                        end) a.

End Dict.

End PyDict.
Import PyDict.

(** ** Loading the two tables (app.py, lines 26-37) *)

Module Loader.

(** The string starts with [+] or [-]. *)
Definition has_sign (s : py_str) : bool :=
  match s with
  | c :: _ => ((c =? cp "+") || (c =? cp "-"))%N
  | [] => false
  end.

(** [str.zfill(width)], which [.str.zfill] applies to each cell: zeros are
    added on the left up to [width]; a leading sign stays in front of them;
    a string of [width] or more characters is returned as it is. *)
Definition zfill (width : nat) (s : py_str) : py_str :=
  if (width <=? length s)%nat then s
  else
    let fill := repeat (cp "0") (width - length s) in
    match s with
    | c :: t => if ((c =? cp "+") || (c =? cp "-"))%N then c :: fill ++ t
                else fill ++ s
    | [] => fill
    end.

Section Strip.
Variable U : unicode_db.

Fixpoint lstrip (s : py_str) : py_str :=
  match s with
  | c :: t => if is_space U c then lstrip t else s
  | [] => []
  end.

Definition rstrip (s : py_str) : py_str := rev (lstrip (rev s)).

(** [str.strip()] *)
Definition strip (s : py_str) : py_str := rstrip (lstrip s).

(** The string does not start with a whitespace character. *)
Definition clear_start (s : py_str) : Prop :=
  match s with
  | c :: _ => is_space U c = false
  | [] => True
  end.

(** [.str.zfill(5).str.strip()], applied to a cell's text, which is what
    [.astype(str)] made of the cell. *)
Definition normalize_zip (text : py_str) : py_str := strip (zfill 5 text).

(** A row of the sheet 'Asset Level Data'.  The three columns read with
    [selected_data[...]] are required; the six read with [.get] may be
    missing. *)
Record property_row := {
  Property : py_str;
  ZipCode : py_str;
  Total_HOA_LTM : float;
  Insurance_LTM : float;
  Property_Tax_LTM : float;
  Opex_Total_Expenses_LTM : option float;
  Capex_Grand_Total_LTM : option float;
  Capex_Rec_Total_LTM : option float;
  Estimated_Annual_Rent_LTM : option float;
  Market_Value_Of_Asset_LTM : option float;
  Rental_Collections_Percentage : option float
}.

Definition set_ZipCode (z : py_str) (r : property_row) : property_row :=
  {| Property := Property r;
     ZipCode := z;
     Total_HOA_LTM := Total_HOA_LTM r;
     Insurance_LTM := Insurance_LTM r;
     Property_Tax_LTM := Property_Tax_LTM r;
     Opex_Total_Expenses_LTM := Opex_Total_Expenses_LTM r;
     Capex_Grand_Total_LTM := Capex_Grand_Total_LTM r;
     Capex_Rec_Total_LTM := Capex_Rec_Total_LTM r;
     Estimated_Annual_Rent_LTM := Estimated_Annual_Rent_LTM r;
     Market_Value_Of_Asset_LTM := Market_Value_Of_Asset_LTM r;
     Rental_Collections_Percentage := Rental_Collections_Percentage r |}.

(** [load_data], from the rows [pd.read_excel] returned. *)
Definition load_data (sheet : list property_row) : list property_row :=
  map (fun r => set_ZipCode (normalize_zip (ZipCode r)) r) sheet.

(** A row of the ZIP-coordinate file. *)
Record zip_row := {
  zr_ZipCode : py_str;
  Latitude : float;
  Longitude : float
}.

(** [load_zip_lat_lon], from the rows [pd.read_csv] returned: the
    dictionary is filled in row order, a later row replacing an earlier one
    with the same key. *)
Definition load_zip_lat_lon (csv : list zip_row) : dict (float * float) :=
  dict_of_pairs
    (map (fun r => (normalize_zip (zr_ZipCode r), (Latitude r, Longitude r))) csv).

End Strip.

End Loader.
Import Loader.

(** ** The calculation engine (app.py, lines 126-136) *)

Module Calc.
Local Open Scope float_scope.

Inductive exn := ZeroDivisionError | IndexError | AttributeError.

Inductive result (A : Type) :=
| Ok (a : A)
| Raise (e : exn).
Arguments Raise {A} e.

Definition bind {A B} (r : result A) (k : A -> result B) : result B :=
  match r with
  | Ok a => k a
  | Raise e => Raise e
  end.

#[local] Notation "x <- r ;; k" := (bind r (fun x => k))
  (at level 61, r at next level, right associativity).

(** [bool(x)] of a float: false for [0.0] and [-0.0] only. *)
Definition truthy (x : float) : bool := negb (x =? 0).

(** [a / b] on floats. *)
Definition truediv (a b : float) : result float :=
  if b =? 0 then Raise ZeroDivisionError else Ok (a / b).

(** [a / b if b else np.nan] *)
Definition div_or_nan (a b : float) : result float :=
  if truthy b then truediv a b else Ok nan.

(** The nine scalars of the input panel. *)
Record nine (A : Type) := {
  total_hoa : A;
  insurance : A;
  property_tax : A;
  opex_total : A;
  capex_total : A;
  capex_rec : A;
  estimated_rent : A;
  market_value : A;
  rental_collection_pct : A
}.

Definition nine_map {A B} (f : A -> B) (x : nine A) : nine B :=
  {| total_hoa := f (total_hoa x);
     insurance := f (insurance x);
     property_tax := f (property_tax x);
     opex_total := f (opex_total x);
     capex_total := f (capex_total x);
     capex_rec := f (capex_rec x);
     estimated_rent := f (estimated_rent x);
     market_value := f (market_value x);
     rental_collection_pct := f (rental_collection_pct x) |}.

Record outputs := {
  net_revenue_ltm : float;
  gross_yield_pct : float;
  noi_ltm : float;
  economic_noi_ltm : float;
  all_in_noi_ltm : float;
  noi_margin_ltm : float;
  economic_noi_margin_ltm : float;
  all_in_noi_margin_ltm : float;
  noi_yield_ltm : float;
  economic_noi_yield_ltm : float;
  all_in_noi_yield_ltm : float
}.

(** Lines 126-136, one binding per assignment, in the script's order. *)
Definition calculate (i : nine float) : result outputs :=
  pct <- truediv (rental_collection_pct i) 100 ;;
  let net_revenue_ltm := estimated_rent i * pct in
  gross_yield_pct <-
    div_or_nan (net_revenue_ltm - total_hoa i - insurance i - property_tax i)
               (market_value i) ;;
  let noi_ltm := net_revenue_ltm - opex_total i in
  let economic_noi_ltm := net_revenue_ltm - opex_total i - capex_total i in
  let all_in_noi_ltm :=
    net_revenue_ltm - opex_total i - capex_total i - capex_rec i in
  noi_margin_ltm <- div_or_nan noi_ltm net_revenue_ltm ;;
  economic_noi_margin_ltm <- div_or_nan economic_noi_ltm net_revenue_ltm ;;
  all_in_noi_margin_ltm <- div_or_nan all_in_noi_ltm net_revenue_ltm ;;
  noi_yield_ltm <- div_or_nan noi_ltm (market_value i) ;;
  economic_noi_yield_ltm <- div_or_nan economic_noi_ltm (market_value i) ;;
  all_in_noi_yield_ltm <- div_or_nan all_in_noi_ltm (market_value i) ;;
  Ok {| net_revenue_ltm := net_revenue_ltm;
        gross_yield_pct := gross_yield_pct;
        noi_ltm := noi_ltm;
        economic_noi_ltm := economic_noi_ltm;
        all_in_noi_ltm := all_in_noi_ltm;
        noi_margin_ltm := noi_margin_ltm;
        economic_noi_margin_ltm := economic_noi_margin_ltm;
        all_in_noi_margin_ltm := all_in_noi_margin_ltm;
        noi_yield_ltm := noi_yield_ltm;
        economic_noi_yield_ltm := economic_noi_yield_ltm;
        all_in_noi_yield_ltm := all_in_noi_yield_ltm |}.

(** What [calculate] returns, in closed form (see [calculate_total]). *)
Definition calculated (i : nine float) : outputs :=
  let net := estimated_rent i * (rental_collection_pct i / 100) in
  let ratio (x d : float) := if d =? 0 then nan else x / d in
  {| net_revenue_ltm := net;
     gross_yield_pct :=
       ratio (net - total_hoa i - insurance i - property_tax i) (market_value i);
     noi_ltm := net - opex_total i;
     economic_noi_ltm := net - opex_total i - capex_total i;
     all_in_noi_ltm := net - opex_total i - capex_total i - capex_rec i;
     noi_margin_ltm := ratio (net - opex_total i) net;
     economic_noi_margin_ltm := ratio (net - opex_total i - capex_total i) net;
     all_in_noi_margin_ltm :=
       ratio (net - opex_total i - capex_total i - capex_rec i) net;
     noi_yield_ltm := ratio (net - opex_total i) (market_value i);
     economic_noi_yield_ltm :=
       ratio (net - opex_total i - capex_total i) (market_value i);
     all_in_noi_yield_ltm :=
       ratio (net - opex_total i - capex_total i - capex_rec i)
             (market_value i) |}.

End Calc.
Import Calc.

(** ** Session state and one run of the script (app.py, lines 46-351) *)

Module Session.

(** A float object.  [PyObject_RichCompareBool], which compares the values
    of two dictionaries, answers true for one and the same object before it
    asks [==]; so the object's identity is kept next to its value. *)
Record pyfloat := {
  ob_id : N;
  ob_fval : float
}.

Definition value_eq (v w : pyfloat) : bool :=
  (ob_id v =? ob_id w)%N || (ob_fval v =? ob_fval w)%float.

Record message := {
  role : py_str;
  content : py_str
}.

(** [st.session_state]: a key that was never set is [None] here; the value
    of [scroll_to_section] is itself [None] or a string. *)
Record session_state := {
  scroll_to_section : option (option py_str);
  last_selected_property : option py_str;
  inputs : option (dict pyfloat);
  messages : option (list message)
}.

Definition new_session : session_state :=
  {| scroll_to_section := None;
     last_selected_property := None;
     inputs := None;
     messages := None |}.

(** The transcript of a session: empty while the key is not set. *)
Definition transcript (s : session_state) : list message :=
  match messages s with
  | Some msgs => msgs
  | None => []
  end.

(** The system message: the values interpolated into the f-string of lines
    266-291 (their rendering as text is not modelled). *)
Record user_context := {
  uc_property : py_str;
  uc_inputs : nine float;
  uc_outputs : outputs
}.

Record payload := {
  model : py_str;
  system_content : user_context;
  user_content : py_str
}.

(** The endpoint's answer: its status and the [message.content] of each
    entry of the body's [choices].  An answer of another shape (a body that
    is not JSON, or has no [choices], [message] or [content]) makes line 315
    raise errors of its own; such answers are outside this model. *)
Record response := {
  status_code : Z;
  choices : list py_str
}.

(** What a run does to the outside, in order.  The table, the download
    button and the map only display and are left out. *)
Inductive effect :=
| Post (p : payload)
| Markdown (text : py_str)
| Write (full_reply : py_str)
| Sleep
| Scroll (target : py_str).

(** What one run reads from the outside: the loaded table, the widgets'
    return values and the endpoint's answer to a request.  Not modelled are
    the runs in which a widget call itself raises (a seed outside the bounds
    of line 85, a required column that is missing) and those in which
    [requests.post] raises for want of an answer; the script catches
    neither. *)
Record run_env := {
  data : list property_row;
  selected_property : py_str;
  number_inputs : nine pyfloat;
  clear_chat : bool;
  evaluate_property : bool;
  summarize_noi : bool;
  explain_gross_yield : bool;
  chat_input : option py_str;
  post : payload -> response
}.

(** A run goes on to its next statement, stops in [st.rerun()], or raises. *)
Inductive outcome (A : Type) :=
| Next (a : A) (s : session_state) (log : list effect)
| Rerun (s : session_state) (log : list effect)
| Raised (e : exn) (s : session_state) (log : list effect).
Arguments Rerun {A} s log.
Arguments Raised {A} e s log.

Definition final_state {A} (o : outcome A) : session_state :=
  match o with
  | Next _ s _ | Rerun s _ | Raised _ s _ => s
  end.

Definition final_log {A} (o : outcome A) : list effect :=
  match o with
  | Next _ _ log | Rerun _ log | Raised _ _ log => log
  end.

Definition script (A : Type) := session_state -> list effect -> outcome A.

(** A script that leaves the component [f] of the session state alone,
    however it ends. *)
Definition preserves {X A} (f : session_state -> X) (m : script A) : Prop :=
  forall s log, f (final_state (m s log)) = f s.

Definition ret {A} (a : A) : script A := fun s log => Next a s log.

Definition bind {A B} (m : script A) (k : A -> script B) : script B :=
  fun s log =>
    match m s log with
    | Next a s' log' => k a s' log'
    | Rerun s' log' => Rerun s' log'
    | Raised e s' log' => Raised e s' log'
    end.

#[local] Notation "x <- m ;; k" := (bind m (fun x => k))
  (at level 61, m at next level, right associativity).
#[local] Notation "m ;; k" := (bind m (fun _ => k))
  (at level 61, right associativity).

Definition rerun : script unit := fun s log => Rerun s log.
Definition raise {A} (e : exn) : script A := fun s log => Raised e s log.
Definition emit (e : effect) : script unit := fun s log => Next tt s (log ++ [e]).
Definition emit_all (l : list effect) : script unit := fun s log => Next tt s (log ++ l).
Definition when (b : bool) (m : script unit) : script unit := if b then m else ret tt.

Definition lift {A} (r : result A) : script A :=
  match r with
  | Ok a => ret a
  | Raise e => raise e
  end.

(** ["key" in st.session_state] and [st.session_state.key]. *)
Definition has {A} (key : session_state -> option A) : script bool :=
  fun s log => Next (match key s with Some _ => true | None => false end) s log.

Definition attr {A} (key : session_state -> option A) : script A :=
  fun s log =>
    match key s with
    | Some a => Next a s log
    | None => Raised AttributeError s log
    end.

(** [st.session_state.key = v] *)
Definition set_scroll_to_section (v : option py_str) : script unit :=
  fun s log =>
    Next tt {| scroll_to_section := Some v;
               last_selected_property := last_selected_property s;
               inputs := inputs s;
               messages := messages s |} log.

Definition set_last_selected_property (v : py_str) : script unit :=
  fun s log =>
    Next tt {| scroll_to_section := scroll_to_section s;
               last_selected_property := Some v;
               inputs := inputs s;
               messages := messages s |} log.

Definition set_inputs (v : dict pyfloat) : script unit :=
  fun s log =>
    Next tt {| scroll_to_section := scroll_to_section s;
               last_selected_property := last_selected_property s;
               inputs := Some v;
               messages := messages s |} log.

Definition set_messages (v : list message) : script unit :=
  fun s log =>
    Next tt {| scroll_to_section := scroll_to_section s;
               last_selected_property := last_selected_property s;
               inputs := inputs s;
               messages := Some v |} log.

(** The two scroll targets. *)
Definition outputs_anchor : option py_str := Some (of_string "outputs").
Definition chatbot_anchor : option py_str := Some (of_string "chatbot").

(** [st.session_state.messages.append(m)] *)
Definition append_message (m : message) : script unit :=
  msgs <- attr messages ;;
  set_messages (msgs ++ [m]).

(** Lines 46-47. *)
Definition init_scroll : script unit :=
  present <- has scroll_to_section ;;
  when (negb present) (set_scroll_to_section None).

(** The session after lines 46-47. *)
Definition after_init (s : session_state) : session_state :=
  match scroll_to_section s with
  | Some _ => s
  | None => {| scroll_to_section := Some None;
               last_selected_property := last_selected_property s;
               inputs := inputs s;
               messages := messages s |}
  end.

(** Lines 64-72. *)
Definition property_reset (selected_property : py_str) : script unit :=
  present <- has last_selected_property ;;
  when (negb present) (set_last_selected_property selected_property) ;;
  last <- attr last_selected_property ;;
  when (negb (str_eqb selected_property last))
    (set_messages [] ;;
     set_inputs [] ;;
     set_last_selected_property selected_property ;;
     set_scroll_to_section outputs_anchor ;;
     rerun).

(** Line 74: [data[data['Property'] == selected_property].iloc[0]]. *)
Definition selected_row (table : list property_row) (selected_property : py_str)
  : result property_row :=
  match filter (fun r => str_eqb (Property r) selected_property) table with
  | r :: _ => Ok r
  | [] => Raise IndexError
  end.

(** Lines 77-85: the [value=] argument of each [number_input], the value a
    widget starts from.  What a widget returns in a run is the framework's
    matter (it can keep an earlier value across a change of property when
    its label and [value=] stay the same) and is read from
    [number_inputs]. *)
Definition seed_inputs (selected_data : property_row) : nine float :=
  let get (cell : option float) (default : float) :=
    match cell with Some x => x | None => default end in
  {| total_hoa := Total_HOA_LTM selected_data;
     insurance := Insurance_LTM selected_data;
     property_tax := Property_Tax_LTM selected_data;
     opex_total := get (Opex_Total_Expenses_LTM selected_data) 0%float;
     capex_total := get (Capex_Grand_Total_LTM selected_data) 0%float;
     capex_rec := get (Capex_Rec_Total_LTM selected_data) 0%float;
     estimated_rent := get (Estimated_Annual_Rent_LTM selected_data) 0%float;
     market_value := get (Market_Value_Of_Asset_LTM selected_data) 0%float;
     rental_collection_pct :=
       get (Rental_Collections_Percentage selected_data) 100%float |}.

(** Lines 101-111 (and 89-99): the dictionary literal. *)
Definition current_inputs {A} (w : nine A) : dict A :=
  [ (of_string "total_hoa", total_hoa w);
    (of_string "insurance", insurance w);
    (of_string "property_tax", property_tax w);
    (of_string "opex_total", opex_total w);
    (of_string "capex_total", capex_total w);
    (of_string "capex_rec", capex_rec w);
    (of_string "estimated_rent", estimated_rent w);
    (of_string "market_value", market_value w);
    (of_string "rental_collection_pct", rental_collection_pct w) ].

(** Lines 88-117. *)
Definition inputs_reset (w : nine pyfloat) : script unit :=
  present <- has inputs ;;
  when (negb present) (set_inputs (current_inputs w)) ;;
  let current_inputs := current_inputs w in
  stored <- attr inputs ;;
  when (negb (dict_eq value_eq current_inputs stored))
    (set_messages [] ;;
     set_inputs current_inputs ;;
     set_scroll_to_section outputs_anchor ;;
     rerun).

(** Lines 64-117: the reset logic, with the row look-up in between. *)
Definition reset_logic (e : run_env) : script property_row :=
  property_reset (selected_property e) ;;
  selected_data <- lift (selected_row (data e) (selected_property e)) ;;
  inputs_reset (number_inputs e) ;;
  ret selected_data.

Definition user : py_str := of_string "user".
Definition assistant : py_str := of_string "assistant".

Definition q_evaluate : py_str :=
  of_string "Based on my numbers, how would you evaluate my property investment?".
Definition q_noi : py_str :=
  of_string "Can you summarize my Net Operating Income (NOI) and what affects it?".
Definition q_yield : py_str :=
  of_string "Can you explain my Gross Yield Percentage based on the dashboard?".

(** Line 318; the first character is U+274C. *)
Definition fallback_message : py_str :=
  10060%N :: of_string " Failed to get a response. Please try again later.".

(** Lines 247-260. *)
Definition read_user_input (e : run_env) : option py_str :=
  let user_input := None in
  let user_input := if evaluate_property e then Some q_evaluate else user_input in
  let user_input := if summarize_noi e then Some q_noi else user_input in
  let user_input := if explain_gross_yield e then Some q_yield else user_input in
  match user_input with
  | None => chat_input e
  | Some _ => user_input
  end.

Definition make_payload (e : run_env) (i : nine float) (o : outputs)
    (user_input : py_str) : payload :=
  {| model := of_string "mistralai/mistral-7b-instruct";
     system_content := {| uc_property := selected_property e;
                          uc_inputs := i;
                          uc_outputs := o |};
     user_content := user_input |}.

(** Lines 234-321. *)
Definition chat_assistant (e : run_env) (i : nine float) (o : outputs)
  : script unit :=
  present <- has messages ;;
  when (negb present) (set_messages []) ;;
  when (clear_chat e)
    (set_messages [] ;;
     set_scroll_to_section chatbot_anchor ;;
     rerun) ;;
  match read_user_input e with
  | Some ((_ :: _) as user_input) =>
      set_messages [] ;;
      append_message {| role := user; content := user_input |} ;;
      let payload := make_payload e i o user_input in
      emit (Post payload) ;;
      let response := post e payload in
      (if (status_code response =? 200)%Z then
         reply <- lift (match choices response with
                        | c :: _ => Ok c
                        | [] => Raise IndexError
                        end) ;;
         append_message {| role := assistant; content := reply |}
       else
         append_message {| role := assistant; content := fallback_message |}) ;;
      set_scroll_to_section chatbot_anchor ;;
      rerun
  | _ => ret tt
  end.

(** Lines 328-333: the placeholder is rewritten once per character. *)
Fixpoint reveal (full_reply assistant_text : py_str) : list effect :=
  match assistant_text with
  | [] => []
  | c :: t =>
      let full_reply := full_reply ++ [c] in
      Write full_reply :: Sleep :: reveal full_reply t
  end.

Section Show.
Variable U : unicode_db.

(** Lines 325-335, for one message. *)
Definition show_message (msg : message) : list effect :=
  if str_eqb (role msg) assistant
  then reveal [] (clean_response_text U (content msg))
  else [Markdown (content msg)].

(** Lines 324-335. *)
Definition show_conversation : script unit :=
  msgs <- attr messages ;;
  emit_all (flat_map show_message msgs).

(** Lines 341-351. *)
Definition smooth_scroll : script unit :=
  target <- attr scroll_to_section ;;
  match target with
  | Some ((_ :: _) as scroll_target) =>
      set_scroll_to_section None ;;
      emit (Scroll scroll_target)
  | _ => ret tt
  end.

(** Lines 126-351: what follows the reset logic. *)
Definition after_reset (e : run_env) : script unit :=
  let i := nine_map ob_fval (number_inputs e) in
  o <- lift (calculate i) ;;
  chat_assistant e i o ;;
  show_conversation ;;
  smooth_scroll.

(** One run of the script, top to bottom. *)
Definition run (e : run_env) : script unit :=
  init_scroll ;;
  _ <- reset_logic e ;;
  after_reset e.

End Show.

End Session.
Import Session.

(** ** Inputs used in the examples *)

Module Examples.
Local Open Scope float_scope.

(** Tables that class no code point above the ASCII range; enough for the
    ASCII strings of the examples. *)
Definition ascii_only : unicode_db :=
  {| uni_isspace := fun _ => false;
     uni_isalnum := fun _ => false;
     uni_isdecimal := fun _ => false |}.

(** The property of the specification's end-to-end example; the three
    inputs the example leaves open are parameters. *)
Definition example_inputs (opex capex rec : float) : nine float :=
  {| total_hoa := 2000;
     insurance := 1500;
     property_tax := 3000;
     opex_total := opex;
     capex_total := capex;
     capex_rec := rec;
     estimated_rent := 120000;
     market_value := 1000000;
     rental_collection_pct := 90 |}.

Definition example_outputs : outputs := calculated (example_inputs 500 0 0).

Definition example_row (name zip : string) : property_row :=
  {| Property := of_string name;
     ZipCode := of_string zip;
     Total_HOA_LTM := 2000;
     Insurance_LTM := 1500;
     Property_Tax_LTM := 3000;
     Opex_Total_Expenses_LTM := Some 500;
     Capex_Grand_Total_LTM := None;
     Capex_Rec_Total_LTM := None;
     Estimated_Annual_Rent_LTM := Some 120000;
     Market_Value_Of_Asset_LTM := Some 1000000;
     Rental_Collections_Percentage := Some 90 |}.

Definition example_table : list property_row :=
  [example_row "Elm St 1" "07302"; example_row "Oak Ave 2" "10001"].

(** Nine fresh float objects holding the given values. *)
Definition fresh (first_id : N) (i : nine float) : nine pyfloat :=
  {| total_hoa := {| ob_id := first_id; ob_fval := total_hoa i |};
     insurance := {| ob_id := first_id + 1; ob_fval := insurance i |};
     property_tax := {| ob_id := first_id + 2; ob_fval := property_tax i |};
     opex_total := {| ob_id := first_id + 3; ob_fval := opex_total i |};
     capex_total := {| ob_id := first_id + 4; ob_fval := capex_total i |};
     capex_rec := {| ob_id := first_id + 5; ob_fval := capex_rec i |};
     estimated_rent := {| ob_id := first_id + 6; ob_fval := estimated_rent i |};
     market_value := {| ob_id := first_id + 7; ob_fval := market_value i |};
     rental_collection_pct :=
       {| ob_id := first_id + 8; ob_fval := rental_collection_pct i |} |}.

(** A run in which [name] is selected, the widgets show [w], the user asks
    [question] (if any) and the endpoint answers [status] with [replies]. *)
Definition example_env (name : string) (w : nine pyfloat)
    (question : option py_str) (status : Z) (replies : list py_str) : run_env :=
  {| data := example_table;
     selected_property := of_string name;
     number_inputs := w;
     clear_chat := false;
     evaluate_property := false;
     summarize_noi := false;
     explain_gross_yield := false;
     chat_input := question;
     post := fun _ => {| status_code := status; choices := replies |} |}.

(** A session in which [name] was selected last, [w] is the stored snapshot
    and the transcript is [msgs]. *)
Definition example_session (name : string) (w : nine pyfloat)
    (msgs : list message) : session_state :=
  {| scroll_to_section := Some None;
     last_selected_property := Some (of_string name);
     inputs := Some (current_inputs w);
     messages := Some msgs |}.

End Examples.
Import Examples.

(** ** The map presenter (app.py, lines 190-225) and measures of a text *)

Module Presenters.

(** What the page shows below the table: the map with one marker, or the
    warning that names the ZIP code. *)
Inductive map_view :=
| PropertyLocation (lat lon : float) (property zip : py_str)
| MissingLocation (zip : py_str).

(** Line 190: [zip_lookup.get(selected_data['ZipCode'], [np.nan, np.nan])]. *)
Definition lookup_coords (zip_lookup : dict (float * float))
    (selected_data : property_row) : float * float :=
  match dict_get zip_lookup (ZipCode selected_data) with
  | Some coords => coords
  | None => (nan, nan)
  end.

(** Lines 192-225; [np.isnan] is [is_nan]. *)
Definition show_map (zip_lookup : dict (float * float))
    (selected_property : py_str) (selected_data : property_row) : map_view :=
  let coords := lookup_coords zip_lookup selected_data in
  if negb (is_nan (fst coords)) && negb (is_nan (snd coords))
  then PropertyLocation (fst coords) (snd coords) selected_property
         (ZipCode selected_data)
  else MissingLocation (ZipCode selected_data).

(** The five patterns of the clean-up pass, as pairs of classes. *)
Definition patterns U : list ((char -> bool) * (char -> bool)) :=
  [ (is_punct, fun c => negb (is_space U c));
    ((fun c => is_digit U c || is_word U c), is_paren);
    (is_paren, fun c => is_digit U c || is_word U c);
    (is_lower, is_upper);
    (is_period, is_upper) ].

(** The number of places of a string where two characters other than the
    space stand side by side. *)
Fixpoint gaps (s : py_str) : nat :=
  match s with
  | a :: ((b :: _) as rest) =>
      (if negb (a =? space)%N && negb (b =? space)%N then 1 else 0) + gaps rest
  | _ => 0
  end.

(** The successive contents of the placeholder: the texts of the [Write]
    effects, in order. *)
Fixpoint writes (log : list effect) : list py_str :=
  match log with
  | Write full_reply :: rest => full_reply :: writes rest
  | _ :: rest => writes rest
  | [] => []
  end.


End Presenters.
Import Presenters.

(** ** Sessions over several runs *)

Module Sessions.

(** The sessions a page can be in: the new one, and the one any run leaves
    behind, however it ends and whatever it read. *)
Inductive reachable : session_state -> Prop :=
| reachable_new : reachable new_session
| reachable_run U e s log :
    reachable s -> reachable (final_state (run U e s log)).

(** The session agrees with what a run reads: the selected property is the
    one recorded and the stored snapshot equals the widgets' values. *)
Definition settled (e : run_env) (s : session_state) : Prop :=
  last_selected_property s = Some (selected_property e)
  /\ exists stored,
       inputs s = Some stored
       /\ dict_eq value_eq (current_inputs (number_inputs e)) stored = true.

(** The transcript is empty, one question, or one question and its
    answer. *)
Definition latest_exchange_only (s : session_state) : Prop :=
  match transcript s with
  | [] => True
  | [q] => role q = user
  | [q; a] => role q = user /\ role a = assistant
  | _ => False
  end.

(** The question of a run, if it is one that [if user_input:] accepts. *)
Definition asked (e : run_env) : option py_str :=
  match read_user_input e with
  | Some ((_ :: _) as user_input) => Some user_input
  | _ => None
  end.

End Sessions.
Import Sessions.

(* ================================================================== *)
(** * Part II: properties *)
(* ================================================================== *)

(** ** A first run *)

(** On a new session no test of the reset logic fires: the run records the
    selection and the widgets' values, creates the empty transcript and
    reaches the end of the script. *)
Example first_run :
  let w := fresh 1 (example_inputs 500 0 0) in
  run ascii_only (example_env "Elm St 1" w None 200 []) new_session []
  = Next tt {| scroll_to_section := Some None;
               last_selected_property := Some (of_string "Elm St 1");
               inputs := Some (current_inputs w);
               messages := Some [] |} [].
Proof.
  vm_compute. reflexivity.
Qed.

(** ** Substitutions only insert spaces *)

Section SubstitutionFacts.
Variables p q : char -> bool.

(** Induction following the recursion of [re_sub2]: a string is empty, one
    character long, or [a :: b :: t] with the property known of both [t]
    and [b :: t]. *)
Lemma scan_ind (P : py_str -> Prop) :
  P [] ->
  (forall a, P [a]) ->
  (forall a b t, P t -> P (b :: t) -> P (a :: b :: t)) ->
  forall s, P s.
Proof.
  intros Hnil Hone Hstep s.
  assert (both : P s /\ forall a, P (a :: s)).
  { induction s as [|b t [IHt IHbt]].
    - split; [exact Hnil | exact Hone].
    - split; [apply IHbt | intro a; apply Hstep; [exact IHt | apply IHbt]]. }
  exact (proj1 both).
Qed.

Lemma re_sub2_head s : hd_error (re_sub2 p q s) = hd_error s.
Proof.
  destruct s as [|a [|b t]]; simpl; try reflexivity.
  destruct (p a && q b); reflexivity.
Qed.

Lemma re_sub2_spaced s : spaced s (re_sub2 p q s).
Proof.
  induction s as [| a | a b t IHt IHbt] using scan_ind.
  - constructor.
  - repeat constructor.
  - simpl. destruct (p a && q b).
    + apply spaced_keep, spaced_insert, spaced_keep, IHt.
    + apply spaced_keep, IHbt.
Qed.

End SubstitutionFacts.

Lemma spaced_trans s t u : spaced s t -> spaced t u -> spaced s u.
Proof.
  intros Hst Htu. revert s Hst.
  induction Htu as [| c t u Htu IH | t u Htu IH]; intros s Hst.
  - exact Hst.
  - inversion Hst; subst.
    + apply spaced_keep, IH; assumption.
    + apply spaced_insert, IH; assumption.
  - apply spaced_insert, IH, Hst.
Qed.

Lemma spaced_non_spaces s t : spaced s t -> non_spaces t = non_spaces s.
Proof.
  induction 1 as [| c s t _ IH | s t _ IH]; simpl.
  - reflexivity.
  - rewrite IH. reflexivity.
  - exact IH.
Qed.

Lemma spaced_length s t : spaced s t -> length s <= length t.
Proof.
  induction 1; simpl; lia.
Qed.

Lemma spaced_head s t :
  spaced s t -> hd_error t = hd_error s \/ hd_error t = Some space.
Proof.
  destruct 1; simpl; auto.
Qed.

Lemma clean_response_text_spaced U s : spaced s (clean_response_text U s).
Proof.
  unfold clean_response_text, rule_punct, rule_word_paren, rule_paren_word,
    rule_lower_upper, rule_period_upper.
  do 4 (eapply spaced_trans; [| apply re_sub2_spaced]).
  apply re_sub2_spaced.
Qed.

(** ** When a substitution is idempotent *)

Section Idempotence.
Variables p q : char -> bool.
Hypothesis p_space : p space = false.
Hypothesis q_space : q space = false.

Lemma no_match_cons a l :
  no_match p q (a :: l) =
  match hd_error l with
  | Some b => negb (p a && q b)
  | None => true
  end && no_match p q l.
Proof.
  destruct l; reflexivity.
Qed.

(** A string without a match is left as it is. *)
Lemma no_match_fixed s : no_match p q s = true -> re_sub2 p q s = s.
Proof.
  induction s as [| a | a b t IHt IHbt] using scan_ind; intro H.
  - reflexivity.
  - reflexivity.
  - change (negb (p a && q b) && no_match p q (b :: t) = true) in H.
    apply andb_true_iff in H. destruct H as [Hab Hrest].
    apply negb_true_iff in Hab.
    change (re_sub2 p q (a :: b :: t))
      with (if p a && q b then a :: space :: b :: re_sub2 p q t
            else a :: re_sub2 p q (b :: t)).
    rewrite Hab, (IHbt Hrest). reflexivity.
Qed.

(** Inserting spaces creates no match. *)
Lemma no_match_spaced s t :
  spaced s t -> no_match p q s = true -> no_match p q t = true.
Proof.
  induction 1 as [| c s t Hst IH | s t Hst IH]; intro H.
  - reflexivity.
  - rewrite no_match_cons in H |- *.
    apply andb_true_iff in H. destruct H as [Hhd Hs].
    rewrite (IH Hs), andb_true_r.
    destruct (spaced_head Hst) as [E | E]; rewrite E.
    + exact Hhd.
    + rewrite q_space, andb_false_r. reflexivity.
  - rewrite no_match_cons, p_space, (IH H).
    destruct (hd_error t); reflexivity.
Qed.

(** After one pass, the only matches left are those whose first character
    was the second character of a match; so there is none when no match of
    the input is followed by a character of [p]. *)
Lemma re_sub2_no_match s :
  no_match p (fun c => q c && p c) s = true ->
  no_match p q (re_sub2 p q s) = true.
Proof.
  induction s as [| a | a b t IHt IHbt] using scan_ind; intro H.
  - reflexivity.
  - reflexivity.
  - change (negb (p a && (q b && p b))
            && no_match p (fun c => q c && p c) (b :: t) = true) in H.
    apply andb_true_iff in H. destruct H as [Hab Hrest].
    change (re_sub2 p q (a :: b :: t))
      with (if p a && q b then a :: space :: b :: re_sub2 p q t
            else a :: re_sub2 p q (b :: t)).
    destruct (p a && q b) eqn:M.
    + apply andb_true_iff in M. destruct M as [Ha Hb].
      rewrite Ha, Hb in Hab. simpl in Hab. apply negb_true_iff in Hab.
      assert (Ht : no_match p (fun c => q c && p c) t = true).
      { destruct t as [|c t']; [reflexivity|].
        simpl in Hrest. apply andb_true_iff in Hrest. apply Hrest. }
      rewrite 3 no_match_cons. cbn iota beta delta [hd_error].
      rewrite q_space, p_space, Hab, (IHt Ht), andb_false_r.
      destruct (hd_error (re_sub2 p q t)); reflexivity.
    + rewrite no_match_cons, re_sub2_head, (IHbt Hrest). simpl.
      rewrite M. reflexivity.
Qed.

Lemma re_sub2_idempotent_on s :
  no_match p (fun c => q c && p c) s = true ->
  re_sub2 p q (re_sub2 p q s) = re_sub2 p q s.
Proof.
  intro H. apply no_match_fixed, re_sub2_no_match, H.
Qed.

(** No character belongs to both classes. *)
Hypothesis disjoint : forall c, p c && q c = false.

Lemma disjoint_no_overlap s : no_match p (fun c => q c && p c) s = true.
Proof.
  induction s as [|a l IH]; [reflexivity|].
  destruct l as [|b t]; [reflexivity|].
  change (negb (p a && (q b && p b))
          && no_match p (fun c => q c && p c) (b :: t) = true).
  rewrite IH, (andb_comm (q b)), disjoint, andb_false_r. reflexivity.
Qed.

Lemma re_sub2_clears s : no_match p q (re_sub2 p q s) = true.
Proof.
  apply re_sub2_no_match, disjoint_no_overlap.
Qed.

Lemma re_sub2_idempotent s : re_sub2 p q (re_sub2 p q s) = re_sub2 p q s.
Proof.
  apply re_sub2_idempotent_on, disjoint_no_overlap.
Qed.

End Idempotence.

(** The side conditions, for the classes of the four later substitutions. *)

Lemma is_paren_inv c : is_paren c = true -> c = 40%N \/ c = 41%N.
Proof.
  unfold is_paren. intro H. apply orb_true_iff in H.
  destruct H as [H | H]; apply N.eqb_eq in H; auto.
Qed.

Lemma word_paren_disjoint U c :
  (is_digit U c || is_word U c) && is_paren c = false.
Proof.
  destruct (is_paren c) eqn:E; [| apply andb_false_r].
  destruct (is_paren_inv c E); subst; reflexivity.
Qed.

Lemma paren_word_disjoint U c :
  is_paren c && (is_digit U c || is_word U c) = false.
Proof.
  rewrite andb_comm. apply word_paren_disjoint.
Qed.

Lemma lower_upper_disjoint c : is_lower c && is_upper c = false.
Proof.
  unfold is_lower, is_upper, in_range.
  destruct (97 <=? c)%N eqn:E1, (c <=? 90)%N eqn:E2; simpl;
    rewrite ?andb_false_r; try reflexivity.
  apply N.leb_le in E1, E2. lia.
Qed.

Lemma period_upper_disjoint c : is_period c && is_upper c = false.
Proof.
  unfold is_period. destruct (c =? 46)%N eqn:E; [| reflexivity].
  apply N.eqb_eq in E. subst. reflexivity.
Qed.

Lemma rule_word_paren_idempotent U s :
  rule_word_paren U (rule_word_paren U s) = rule_word_paren U s.
Proof.
  apply re_sub2_idempotent;
    [reflexivity | reflexivity | apply word_paren_disjoint].
Qed.

Lemma rule_paren_word_idempotent U s :
  rule_paren_word U (rule_paren_word U s) = rule_paren_word U s.
Proof.
  apply re_sub2_idempotent;
    [reflexivity | reflexivity | apply paren_word_disjoint].
Qed.

(** The two parenthesis substitutions in sequence: the second one only
    inserts spaces, so it brings back no match of the first. *)
Lemma rule_parens_idempotent U s :
  rule_parens U (rule_parens U s) = rule_parens U s.
Proof.
  unfold rule_parens.
  set (x := rule_word_paren U s).
  assert (Hwp : no_match (fun c => is_digit U c || is_word U c) is_paren
                  (rule_paren_word U x) = true).
  { apply no_match_spaced with (s := x);
      [reflexivity | reflexivity | apply re_sub2_spaced |].
    apply re_sub2_clears;
      [reflexivity | reflexivity | apply word_paren_disjoint]. }
  unfold rule_word_paren at 1.
  rewrite (no_match_fixed _ _ _ Hwp).
  apply rule_paren_word_idempotent.
Qed.

Lemma rule_lower_upper_idempotent s :
  rule_lower_upper (rule_lower_upper s) = rule_lower_upper s.
Proof.
  apply re_sub2_idempotent;
    [reflexivity | reflexivity | apply lower_upper_disjoint].
Qed.

Lemma rule_period_upper_idempotent s :
  rule_period_upper (rule_period_upper s) = rule_period_upper s.
Proof.
  apply re_sub2_idempotent;
    [reflexivity | reflexivity | apply period_upper_disjoint].
Qed.

Lemma rule_punct_idempotent_on U s :
  no_match is_punct is_punct s = true ->
  rule_punct U (rule_punct U s) = rule_punct U s.
Proof.
  intro H. apply re_sub2_idempotent_on; [reflexivity | reflexivity |].
  clear -H. induction s as [|a l IH]; [reflexivity|].
  destruct l as [|b t]; [reflexivity|].
  change (negb (is_punct a && is_punct b)
          && no_match is_punct is_punct (b :: t) = true) in H.
  apply andb_true_iff in H. destruct H as [Hab Hrest].
  change (negb (is_punct a && (negb (is_space U b) && is_punct b))
          && no_match is_punct (fun c => negb (is_space U c) && is_punct c)
               (b :: t) = true).
  rewrite (IH Hrest), andb_true_r.
  apply negb_true_iff in Hab. apply negb_true_iff.
  destruct (is_punct a), (is_punct b); simpl in *;
    rewrite ?andb_false_r; congruence.
Qed.

(** ** The clean-up pass: claims C4, C5, C9 *)

(** C4, as the specification states it, fails: on ["Hi.There(5)bigBad"] the
    clean-up pass does not return ["Hi. There (5) big Bad"], whatever the
    Unicode tables are. *)
Lemma clean_example_not_as_specified :
  ~ exists U,
      clean_response_text U (of_string "Hi.There(5)bigBad")
      = of_string "Hi. There (5) big Bad".
Proof.
  intros [U H]. vm_compute in H. discriminate H.
Qed.

(** C4, amended: applied to ["Hi.There(5)bigBad"], [clean_response_text]
    returns ["Hi. There ( 5 ) big Bad"]: the two parenthesis substitutions
    put a space on both sides of each parenthesis that touches a word
    character. *)
Theorem clean_example U :
  clean_response_text U (of_string "Hi.There(5)bigBad")
  = of_string "Hi. There ( 5 ) big Bad".
Proof.
  vm_compute. reflexivity.
Qed.

(** C5, as the specification states it, fails for the first rule: on
    ["..a"] one application gives [". .a"] and a second one [". . a"]. *)
Lemma rule_punct_not_idempotent :
  ~ exists U,
      rule_punct U (rule_punct U (of_string "..a"))
      = rule_punct U (of_string "..a").
Proof.
  intros [U H]. vm_compute in H. discriminate H.
Qed.

(** C5, amended: every substitution of the clean-up pass other than the
    first is idempotent in isolation, for every input: each of the two
    parenthesis substitutions, the two in sequence (rule 2), the
    lowercase/uppercase rule (rule 3) and the period/uppercase rule (rule 4).
    The first rule is idempotent on the inputs in which no character of
    [.,!?] is directly followed by another one. *)
Theorem rules_idempotent U s :
  rule_word_paren U (rule_word_paren U s) = rule_word_paren U s
  /\ rule_paren_word U (rule_paren_word U s) = rule_paren_word U s
  /\ rule_parens U (rule_parens U s) = rule_parens U s
  /\ rule_lower_upper (rule_lower_upper s) = rule_lower_upper s
  /\ rule_period_upper (rule_period_upper s) = rule_period_upper s
  /\ (no_match is_punct is_punct s = true ->
      rule_punct U (rule_punct U s) = rule_punct U s).
Proof.
  repeat split.
  - apply rule_word_paren_idempotent.
  - apply rule_paren_word_idempotent.
  - apply rule_parens_idempotent.
  - apply rule_lower_upper_idempotent.
  - apply rule_period_upper_idempotent.
  - apply rule_punct_idempotent_on.
Qed.

Lemma rules_idempotent_witness :
  no_match is_punct is_punct (of_string "Hi.There(5)bigBad") = true
  /\ rule_punct ascii_only
       (rule_punct ascii_only (of_string "Hi.There(5)bigBad"))
     = rule_punct ascii_only (of_string "Hi.There(5)bigBad").
Proof.
  split; [reflexivity |].
  apply (proj2 (proj2 (proj2 (proj2 (proj2
           (rules_idempotent ascii_only (of_string "Hi.There(5)bigBad"))))))).
  reflexivity.
Defined.

(** C9: for every input string, [clean_response_text] only inserts space
    characters: the output is the input with spaces inserted, its
    characters other than the space are those of the input in the same
    order, and it is at least as long as the input. *)
Theorem clean_only_inserts_spaces U s :
  spaced s (clean_response_text U s)
  /\ non_spaces (clean_response_text U s) = non_spaces s
  /\ length s <= length (clean_response_text U s).
Proof.
  pose proof (clean_response_text_spaced U s) as H.
  split; [exact H |].
  split; [apply spaced_non_spaces | apply spaced_length]; exact H.
Qed.

(** ** The calculation engine: claims C1, C2 *)

Section CalcFacts.
Local Open Scope float_scope.

(** A decimal literal stands for the nearest binary64 value, as in Python. *)
#[local] Set Warnings "-inexact-float".

Lemma truediv_100 x : truediv x 100 = Ok (x / 100).
Proof.
  reflexivity.
Qed.

(** The guarded division never raises: the guard and the test of [/] are
    the same comparison with zero. *)
Lemma div_or_nan_total a b :
  div_or_nan a b = Ok (if b =? 0 then nan else a / b).
Proof.
  unfold div_or_nan, truthy, truediv.
  destruct (b =? 0); reflexivity.
Qed.

Lemma calculate_total i : calculate i = Ok (calculated i).
Proof.
  unfold calculate. rewrite truediv_100. cbn [Calc.bind].
  repeat (rewrite div_or_nan_total; cbn [Calc.bind]).
  reflexivity.
Qed.

(** C1: for every assignment of the nine inputs the engine returns, and
    [net_revenue] is [estimated_rent * (rental_collection_pct / 100)]; for
    estimated_rent=120000, rental_collection_pct=90, total_hoa=2000,
    insurance=1500, property_tax=3000, market_value=1000000 (and any values
    of the other three) [net_revenue] is 108000 and [gross_yield_pct] is
    (108000-2000-1500-3000)/1000000, which is the float 0.1015. *)
Theorem net_revenue_formula :
  (forall i, exists o,
      calculate i = Ok o
      /\ net_revenue_ltm o = estimated_rent i * (rental_collection_pct i / 100))
  /\ (forall opex capex rec, exists o,
        calculate (example_inputs opex capex rec) = Ok o
        /\ net_revenue_ltm o = 108000
        /\ gross_yield_pct o = (108000 - 2000 - 1500 - 3000) / 1000000
        /\ gross_yield_pct o = 0.1015).
Proof.
  split.
  - intro i. exists (calculated i). split; [apply calculate_total | reflexivity].
  - intros opex capex rec. exists (calculated (example_inputs opex capex rec)).
    split; [apply calculate_total |].
    repeat split; reflexivity.
Qed.

(** C2: for every assignment of the nine inputs the engine returns a record
    and raises nothing; when [market_value == 0] the gross yield and the
    three NOI yields are NaN, when [net_revenue == 0] the three margins are
    NaN, and every other output is the value of its formula. *)
Theorem division_by_zero_gives_nan i :
  exists o,
    calculate i = Ok o
    /\ ((market_value i =? 0) = true ->
        gross_yield_pct o = nan /\ noi_yield_ltm o = nan
        /\ economic_noi_yield_ltm o = nan /\ all_in_noi_yield_ltm o = nan)
    /\ ((net_revenue_ltm o =? 0) = true ->
        noi_margin_ltm o = nan /\ economic_noi_margin_ltm o = nan
        /\ all_in_noi_margin_ltm o = nan)
    /\ net_revenue_ltm o = estimated_rent i * (rental_collection_pct i / 100)
    /\ noi_ltm o = net_revenue_ltm o - opex_total i
    /\ economic_noi_ltm o = net_revenue_ltm o - opex_total i - capex_total i
    /\ all_in_noi_ltm o
       = net_revenue_ltm o - opex_total i - capex_total i - capex_rec i
    /\ ((market_value i =? 0) = false ->
        gross_yield_pct o
        = (net_revenue_ltm o - total_hoa i - insurance i - property_tax i)
          / market_value i
        /\ noi_yield_ltm o = noi_ltm o / market_value i
        /\ economic_noi_yield_ltm o = economic_noi_ltm o / market_value i
        /\ all_in_noi_yield_ltm o = all_in_noi_ltm o / market_value i)
    /\ ((net_revenue_ltm o =? 0) = false ->
        noi_margin_ltm o = noi_ltm o / net_revenue_ltm o
        /\ economic_noi_margin_ltm o = economic_noi_ltm o / net_revenue_ltm o
        /\ all_in_noi_margin_ltm o = all_in_noi_ltm o / net_revenue_ltm o).
Proof.
  exists (calculated i). split; [apply calculate_total |].
  unfold calculated; cbn [net_revenue_ltm gross_yield_pct noi_ltm
    economic_noi_ltm all_in_noi_ltm noi_margin_ltm economic_noi_margin_ltm
    all_in_noi_margin_ltm noi_yield_ltm economic_noi_yield_ltm
    all_in_noi_yield_ltm].
  repeat split; intros; try reflexivity;
    match goal with H : (_ =? 0) = _ |- _ => rewrite H; reflexivity end.
Qed.

Lemma division_by_zero_gives_nan_witness :
  exists o,
    calculate (nine_map (fun _ => 0) (example_inputs 0 0 0)) = Ok o
    /\ gross_yield_pct o = nan /\ noi_margin_ltm o = nan.
Proof.
  destruct (division_by_zero_gives_nan
              (nine_map (fun _ => 0) (example_inputs 0 0 0)))
    as (o & Hcalc & Hmv & Hnet & Hval & _).
  exists o. split; [exact Hcalc |].
  split.
  - apply Hmv. reflexivity.
  - apply Hnet. rewrite Hval. reflexivity.
Defined.

End CalcFacts.

(** ** Dictionaries *)

Lemma str_eqb_eq a b : str_eqb a b = true <-> a = b.
Proof.
  revert b. induction a as [|x a IH]; intros [|y b]; simpl;
    try (split; [discriminate | discriminate]); [tauto |].
  rewrite andb_true_iff, N.eqb_eq, IH.
  split; [intros [-> ->]; reflexivity | intro H; injection H; auto].
Qed.

Lemma str_eqb_refl a : str_eqb a a = true.
Proof.
  apply str_eqb_eq. reflexivity.
Qed.

Lemma dict_set_keys V (d : dict V) k' v k :
  In k (dict_keys (dict_set d k' v)) <-> k = k' \/ In k (dict_keys d).
Proof.
  induction d as [|[k0 v0] d IH]; simpl.
  - intuition congruence.
  - destruct (str_eqb k0 k') eqn:E; simpl.
    + apply str_eqb_eq in E. subst. intuition congruence.
    + unfold dict_keys in IH. rewrite IH. intuition congruence.
Qed.

Lemma dict_of_pairs_keys V (kvs : list (py_str * V)) k :
  In k (dict_keys (dict_of_pairs kvs)) <-> In k (map fst kvs).
Proof.
  unfold dict_of_pairs.
  assert (G : forall d,
             In k (dict_keys (fold_left
                                (fun d kv => dict_set d (fst kv) (snd kv))
                                kvs d))
             <-> In k (dict_keys d) \/ In k (map fst kvs)).
  { induction kvs as [|[k0 v0] kvs IH]; intro d; simpl.
    - tauto.
    - rewrite IH, dict_set_keys. intuition congruence. }
  rewrite G. simpl. tauto.
Qed.

(** ** ZIP codes: claim C7 *)

Section StripFacts.
Variable U : unicode_db.

Lemma lstrip_length s : length (lstrip U s) <= length s.
Proof.
  induction s as [|c t IH]; simpl; [lia |].
  destruct (is_space U c); simpl; lia.
Qed.

Lemma rstrip_length s : length (rstrip U s) <= length s.
Proof.
  unfold rstrip. rewrite length_rev, <- (length_rev s). apply lstrip_length.
Qed.

Lemma lstrip_fixed s : clear_start U s -> lstrip U s = s.
Proof.
  destruct s as [|c t]; simpl; [reflexivity |].
  intros ->. reflexivity.
Qed.

Lemma lstrip_shorter s : ~ clear_start U s -> length (lstrip U s) < length s.
Proof.
  destruct s as [|c t]; simpl; [tauto |].
  destruct (is_space U c); [| congruence].
  intros _. pose proof (lstrip_length t). lia.
Qed.

Lemma clear_start_dec s : clear_start U s \/ ~ clear_start U s.
Proof.
  destruct s as [|c t]; simpl; [auto |].
  destruct (is_space U c); [right; discriminate | left; reflexivity].
Qed.

(** [strip] leaves a string as it is exactly when the string neither starts
    nor ends with whitespace. *)
Lemma strip_fixed_iff s :
  strip U s = s <-> clear_start U s /\ clear_start U (rev s).
Proof.
  unfold strip. split.
  - intro H.
    assert (Hs : clear_start U s).
    { destruct (clear_start_dec s) as [Hs | Hs]; [exact Hs |].
      apply lstrip_shorter in Hs.
      pose proof (rstrip_length (lstrip U s)) as L.
      rewrite H in L. lia. }
    split; [exact Hs |].
    rewrite (lstrip_fixed s Hs) in H. unfold rstrip in H.
    destruct (clear_start_dec (rev s)) as [Hr | Hr]; [exact Hr |].
    apply lstrip_shorter in Hr.
    rewrite <- H in Hr at 2. rewrite !length_rev in Hr. lia.
  - intros [Hs Hr]. rewrite (lstrip_fixed s Hs). unfold rstrip.
    rewrite (lstrip_fixed _ Hr). apply rev_involutive.
Qed.

Lemma clear_start_app a b :
  a <> [] -> (clear_start U (a ++ b) <-> clear_start U a).
Proof.
  destruct a; simpl; tauto.
Qed.

End StripFacts.

Lemma zfill_long width s : width <= length s -> zfill width s = s.
Proof.
  intro H. unfold zfill. apply Nat.leb_le in H. rewrite H. reflexivity.
Qed.

Lemma zfill_unsigned width s :
  length s < width -> has_sign s = false ->
  zfill width s = repeat (cp "0") (width - length s) ++ s.
Proof.
  intros H Hs. unfold zfill.
  destruct (width <=? length s) eqn:E; [apply Nat.leb_le in E; lia |].
  destruct s as [|c t]; [rewrite app_nil_r; reflexivity |].
  unfold has_sign in Hs. rewrite Hs. reflexivity.
Qed.

Lemma zfill_length width s : length (zfill width s) = Nat.max width (length s).
Proof.
  unfold zfill. destruct (width <=? length s) eqn:E.
  - apply Nat.leb_le in E. lia.
  - apply Nat.leb_gt in E.
    destruct s as [|c t]; [| destruct ((c =? cp "+") || (c =? cp "-"))%N];
      simpl; rewrite ?length_app, repeat_length; simpl in *; lia.
Qed.

(** Padding a string that has no outer whitespace gives one that has none
    either, so the [strip] that follows changes nothing. *)
Lemma strip_zfill U text :
  strip U text = text -> strip U (zfill 5 text) = zfill 5 text.
Proof.
  intro H. apply strip_fixed_iff in H. destruct H as [Hs Hr].
  apply strip_fixed_iff.
  unfold zfill. destruct (5 <=? length text) eqn:E; [split; assumption |].
  apply Nat.leb_gt in E.
  destruct (5 - length text) as [|n] eqn:F; [lia |].
  destruct text as [|c t].
  - split; [reflexivity |]. rewrite rev_repeat. reflexivity.
  - assert (Hend : clear_start U (rev (repeat (cp "0") (S n) ++ t))).
    { rewrite rev_app_distr, rev_repeat.
      destruct t as [|d t']; [reflexivity |].
      apply clear_start_app.
      - intro A. apply (f_equal (@length _)) in A.
        rewrite length_rev in A. discriminate A.
      - change (rev (c :: d :: t')) with (rev (d :: t') ++ [c]) in Hr.
        apply clear_start_app in Hr; [exact Hr |].
        intro A. apply (f_equal (@length _)) in A.
        rewrite length_rev in A. discriminate A. }
    destruct ((c =? cp "+") || (c =? cp "-"))%N.
    + split; [exact Hs |].
      change (rev (c :: repeat (cp "0") (S n) ++ t))
        with (rev (repeat (cp "0") (S n) ++ t) ++ [c]).
      apply clear_start_app; [| exact Hend].
      intro A. apply (f_equal (@length _)) in A.
      rewrite length_rev, length_app in A. discriminate A.
    + split; [reflexivity |].
      rewrite rev_app_distr.
      apply clear_start_app; [| exact Hr].
      intro A. apply (f_equal (@length _)) in A.
      rewrite length_rev in A. discriminate A.
Qed.

(** C7, as the specification states it, fails: a cell whose text has more
    than five characters, such as ["12345-6789"], is loaded as it is, ten
    characters long; and a cell whose text is ["123 "] is padded to
    ["0123 "] and then stripped, so the loaded ZIP code is ["0123"], four
    characters long. *)
Lemma zip_code_not_always_five :
  (~ exists U,
       forall z,
         In z (map ZipCode
                 (load_data U [example_row "Elm St 1" "12345-6789"])) ->
         length z = 5)
  /\ (~ exists U,
         forall z,
           In z (map ZipCode (load_data U [example_row "Elm St 1" "123 "])) ->
           length z = 5).
Proof.
  split; intros [U H].
  - specialize (H (of_string "12345-6789")).
    assert (A : length (of_string "12345-6789") = 5); [| discriminate A].
    apply H. vm_compute. left. reflexivity.
  - specialize (H (of_string "0123")).
    assert (A : length (of_string "0123") = 5); [| discriminate A].
    apply H. vm_compute. left. reflexivity.
Qed.

(** C7, amended: after loading, every ZipCode of the property table and
    every key of the ZIP-coordinate lookup is [normalize_zip] of its cell's
    text; and for a text without leading or trailing whitespace that value
    is the text zero-filled to width 5: it has [max 5 (length text)]
    characters, so at least 5; a text of 5 or more characters is kept as it
    is; a text of fewer than 5 characters that does not start with a sign is
    preceded by zeros up to exactly 5 characters. *)
Theorem zip_codes_zero_filled U :
  (forall sheet,
      map ZipCode (load_data U sheet)
      = map (fun r => normalize_zip U (ZipCode r)) sheet)
  /\ (forall csv k,
        In k (dict_keys (load_zip_lat_lon U csv))
        <-> exists r, In r csv /\ k = normalize_zip U (zr_ZipCode r))
  /\ (forall text,
        strip U text = text ->
        normalize_zip U text = zfill 5 text
        /\ length (normalize_zip U text) = Nat.max 5 (length text)
        /\ (5 <= length text -> normalize_zip U text = text)
        /\ (length text < 5 -> has_sign text = false ->
            normalize_zip U text = repeat (cp "0") (5 - length text) ++ text
            /\ length (normalize_zip U text) = 5)).
Proof.
  split; [| split].
  - intro sheet. unfold load_data. rewrite map_map. reflexivity.
  - intros csv k. unfold load_zip_lat_lon.
    rewrite dict_of_pairs_keys, map_map. simpl. rewrite in_map_iff.
    split; intros (r & A & B); exists r; auto.
  - intros text H.
    assert (E : normalize_zip U text = zfill 5 text)
      by (apply strip_zfill, H).
    rewrite E. split; [reflexivity |].
    split; [apply zfill_length |].
    split; [apply zfill_long |].
    intros Hlen Hsign. split.
    + apply zfill_unsigned; assumption.
    + rewrite zfill_length. lia.
Qed.

Lemma zip_codes_zero_filled_witness :
  strip ascii_only (of_string "7302") = of_string "7302"
  /\ normalize_zip ascii_only (of_string "7302") = of_string "07302".
Proof.
  assert (H : strip ascii_only (of_string "7302") = of_string "7302")
    by reflexivity.
  split; [exact H |].
  destruct (proj2 (proj2 (zip_codes_zero_filled ascii_only))
              (of_string "7302") H)
    as (_ & _ & _ & P).
  destruct P as [P _]; [simpl; lia | reflexivity |].
  rewrite P. reflexivity.
Defined.

(** ** Session state: the reset logic, claims C3 and C10 *)

Ltac unfold_script :=
  unfold reset_logic, property_reset, inputs_reset, init_scroll,
    append_message, set_messages, set_inputs, set_last_selected_property,
    set_scroll_to_section, Session.bind, has, attr, when, lift, rerun,
    Session.raise, emit, emit_all, ret.

Lemma value_eq_refl v : value_eq v v = true.
Proof.
  unfold value_eq. rewrite N.eqb_refl. reflexivity.
Qed.

(** The literal of line 89 and that of line 101 hold the same nine objects,
    so the comparison of line 113 finds them equal. *)
Lemma current_inputs_eq_refl (w : nine pyfloat) :
  dict_eq value_eq (current_inputs w) (current_inputs w) = true.
Proof.
  unfold dict_eq, current_inputs. cbn -[value_eq].
  rewrite !value_eq_refl. reflexivity.
Qed.

Lemma current_inputs_map A B (f : A -> B) (w : nine A) :
  dict_map f (current_inputs w) = current_inputs (nine_map f w).
Proof.
  reflexivity.
Qed.

Section Frame.
Context {X : Type} (f : session_state -> X).

Lemma preserves_bind A B (m : script A) (k : A -> script B) :
  preserves f m -> (forall a, preserves f (k a)) ->
  preserves f (Session.bind m k).
Proof.
  intros Hm Hk s log. unfold Session.bind.
  specialize (Hm s log). destruct (m s log) as [a s' log' | |]; simpl in Hm.
  - rewrite Hk. exact Hm.
  - exact Hm.
  - exact Hm.
Qed.

Lemma preserves_ret A (a : A) : preserves f (ret a).
Proof. intros s log. reflexivity. Qed.

Lemma preserves_rerun : preserves f rerun.
Proof. intros s log. reflexivity. Qed.

Lemma preserves_raise A e : preserves f (@Session.raise A e).
Proof. intros s log. reflexivity. Qed.

Lemma preserves_emit e : preserves f (emit e).
Proof. intros s log. reflexivity. Qed.

Lemma preserves_emit_all l : preserves f (emit_all l).
Proof. intros s log. reflexivity. Qed.

Lemma preserves_has A (key : session_state -> option A) : preserves f (has key).
Proof. intros s log. reflexivity. Qed.

Lemma preserves_attr A (key : session_state -> option A) :
  preserves f (attr key).
Proof. intros s log. unfold attr. destruct (key s); reflexivity. Qed.

Lemma preserves_lift A (r : result A) : preserves f (lift r).
Proof. intros s log. destruct r; reflexivity. Qed.

Lemma preserves_when b m : preserves f m -> preserves f (when b m).
Proof. intro H. destruct b; [exact H | apply preserves_ret]. Qed.

End Frame.

Lemma set_scroll_preserves_inputs v :
  preserves inputs (set_scroll_to_section v).
Proof. intros s log. reflexivity. Qed.

Lemma set_scroll_preserves_last v :
  preserves last_selected_property (set_scroll_to_section v).
Proof. intros s log. reflexivity. Qed.

Lemma set_scroll_preserves_messages v :
  preserves messages (set_scroll_to_section v).
Proof. intros s log. reflexivity. Qed.

Lemma set_messages_preserves_inputs v : preserves inputs (set_messages v).
Proof. intros s log. reflexivity. Qed.

Lemma set_messages_preserves_last v :
  preserves last_selected_property (set_messages v).
Proof. intros s log. reflexivity. Qed.

Create HintDb frame.
#[local] Hint Resolve preserves_ret preserves_rerun preserves_raise preserves_emit
  preserves_emit_all preserves_has preserves_attr preserves_lift
  preserves_when set_scroll_preserves_inputs set_scroll_preserves_last
  set_scroll_preserves_messages set_messages_preserves_inputs
  set_messages_preserves_last : frame.

(** Splits a script along its binds and branches and closes the leaves. *)
Ltac frame :=
  repeat first
    [ progress auto with frame
    | apply preserves_bind; [| intro]
    | apply preserves_when
    | match goal with
      | |- preserves _ (match ?x with _ => _ end) => destruct x
      end ].

Lemma show_conversation_preserves X (f : session_state -> X) U :
  preserves f (show_conversation U).
Proof.
  unfold show_conversation. frame.
Qed.

Lemma smooth_scroll_preserves_messages : preserves messages smooth_scroll.
Proof.
  unfold smooth_scroll. frame.
Qed.

(** With no click and no question the chat stage only sets the transcript
    of a session that has none. *)
Lemma chat_assistant_idle e i o s log :
  clear_chat e = false -> read_user_input e = None ->
  exists s',
    chat_assistant e i o s log = Next tt s' log
    /\ messages s' = Some (transcript s).
Proof.
  intros Hc Hq. unfold chat_assistant, transcript. unfold_script.
  rewrite Hc, Hq. destruct (messages s) eqn:Hm.
  - exists s. split; [reflexivity | exact Hm].
  - eexists. split; reflexivity.
Qed.

Lemma run_unfold U e :
  run U e
  = Session.bind init_scroll (fun _ =>
    Session.bind (reset_logic e) (fun _ => after_reset U e)).
Proof.
  reflexivity.
Qed.

Lemma after_reset_preserves_inputs U e : preserves inputs (after_reset U e).
Proof.
  unfold after_reset. frame.
Qed.

Lemma after_reset_preserves_last U e :
  preserves last_selected_property (after_reset U e).
Proof.
  unfold after_reset. frame.
Qed.

Lemma after_reset_idle U e s log :
  clear_chat e = false -> read_user_input e = None ->
  messages (final_state (after_reset U e s log)) = Some (transcript s).
Proof.
  intros Hc Hq. unfold after_reset.
  rewrite calculate_total. unfold lift, ret, Session.bind at 1.
  unfold Session.bind at 1.
  destruct (chat_assistant_idle e (nine_map ob_fval (number_inputs e))
              (calculated (nine_map ob_fval (number_inputs e))) s log Hc Hq)
    as (s' & -> & <-).
  apply (@preserves_bind _ messages _ _ (show_conversation U)
           (fun _ => smooth_scroll)).
  - apply show_conversation_preserves.
  - intro. apply smooth_scroll_preserves_messages.
Qed.

Lemma init_scroll_eq s log : init_scroll s log = Next tt (after_init s) log.
Proof.
  unfold after_init. unfold_script.
  destruct (scroll_to_section s); reflexivity.
Qed.

Lemma after_init_fields s :
  last_selected_property (after_init s) = last_selected_property s
  /\ inputs (after_init s) = inputs s
  /\ messages (after_init s) = messages s.
Proof.
  unfold after_init. destruct (scroll_to_section s); auto.
Qed.

(** The two tests of the reset logic, branch by branch. *)

Lemma property_reset_same sel s log last :
  last_selected_property s = Some last -> str_eqb sel last = true ->
  property_reset sel s log = Next tt s log.
Proof.
  intros Hl He. unfold_script. rewrite Hl. cbn. rewrite Hl, He. reflexivity.
Qed.

Lemma property_reset_first sel s log :
  last_selected_property s = None ->
  property_reset sel s log
  = Next tt {| scroll_to_section := scroll_to_section s;
               last_selected_property := Some sel;
               inputs := inputs s;
               messages := messages s |} log.
Proof.
  intros Hl. unfold_script. rewrite Hl. cbn. rewrite str_eqb_refl. reflexivity.
Qed.

Lemma property_reset_changed sel s log last :
  last_selected_property s = Some last -> str_eqb sel last = false ->
  property_reset sel s log
  = Rerun {| scroll_to_section := Some outputs_anchor;
             last_selected_property := Some sel;
             inputs := Some [];
             messages := Some [] |} log.
Proof.
  intros Hl He. unfold_script. rewrite Hl. cbn. rewrite Hl, He. reflexivity.
Qed.

Lemma inputs_reset_same (w : nine pyfloat) s log stored :
  inputs s = Some stored ->
  dict_eq value_eq (current_inputs w) stored = true ->
  inputs_reset w s log = Next tt s log.
Proof.
  intros Hi He. unfold_script. rewrite Hi. cbn. rewrite Hi, He. reflexivity.
Qed.

Lemma inputs_reset_changed (w : nine pyfloat) s log stored :
  inputs s = Some stored ->
  dict_eq value_eq (current_inputs w) stored = false ->
  inputs_reset w s log
  = Rerun {| scroll_to_section := Some outputs_anchor;
             last_selected_property := last_selected_property s;
             inputs := Some (current_inputs w);
             messages := Some [] |} log.
Proof.
  intros Hi He. unfold_script. rewrite Hi. cbn. rewrite Hi, He. reflexivity.
Qed.


Lemma reset_logic_unfold e s log :
  reset_logic e s log
  = match property_reset (selected_property e) s log with
    | Next _ s1 log1 =>
        match selected_row (data e) (selected_property e) with
        | Ok row =>
            match inputs_reset (number_inputs e) s1 log1 with
            | Next _ s2 log2 => Next row s2 log2
            | Rerun s2 log2 => Rerun s2 log2
            | Raised x s2 log2 => Raised x s2 log2
            end
        | Raise x => Raised x s1 log1
        end
    | Rerun s1 log1 => Rerun s1 log1
    | Raised x s1 log1 => Raised x s1 log1
    end.
Proof.
  unfold reset_logic, Session.bind.
  destruct (property_reset (selected_property e) s log); try reflexivity.
  destruct (selected_row (data e) (selected_property e)); reflexivity.
Qed.




(** C10: if the nine current input values equal the stored snapshot and
    the selected property equals the one selected last, neither test of the
    reset logic fires: each leaves the whole session as it is and the run
    goes on; the run ends with the stored inputs and the last-selected
    marker unchanged, and, when the user neither clears the chat nor asks a
    question, with the same transcript. *)
Theorem no_change_no_reset U e s log stored last :
  inputs s = Some stored ->
  dict_eq value_eq (current_inputs (number_inputs e)) stored = true ->
  last_selected_property s = Some last ->
  str_eqb (selected_property e) last = true ->
  property_reset (selected_property e) s log = Next tt s log
  /\ inputs_reset (number_inputs e) s log = Next tt s log
  /\ inputs (final_state (run U e s log)) = inputs s
  /\ last_selected_property (final_state (run U e s log))
     = last_selected_property s
  /\ (clear_chat e = false -> read_user_input e = None ->
      transcript (final_state (run U e s log)) = transcript s).
Proof.
  intros Hi Hd Hl He.
  split; [eapply property_reset_same; eassumption |].
  split; [eapply inputs_reset_same; eassumption |].
  destruct (after_init_fields s) as (Fl & Fi & Fm).
  assert (R : run U e s log
              = match selected_row (data e) (selected_property e) with
                | Ok _ => after_reset U e (after_init s) log
                | Raise x => Raised x (after_init s) log
                end).
  { rewrite run_unfold. unfold Session.bind at 1. rewrite init_scroll_eq.
    unfold Session.bind at 1. rewrite reset_logic_unfold.
    erewrite property_reset_same; [| rewrite Fl; eassumption | eassumption].
    destruct (selected_row (data e) (selected_property e)); [| reflexivity].
    erewrite inputs_reset_same; [| rewrite Fi; eassumption | eassumption].
    reflexivity. }
  rewrite R.
  destruct (selected_row (data e) (selected_property e)).
  - rewrite after_reset_preserves_inputs, after_reset_preserves_last.
    split; [exact Fi |]. split; [exact Fl |].
    intros Hc Hq. unfold transcript at 1.
    rewrite after_reset_idle by assumption.
    unfold transcript. rewrite Fm. reflexivity.
  - simpl. unfold transcript. rewrite Fm. auto.
Qed.

Lemma no_change_no_reset_witness :
  let kept := [{| role := user; content := q_noi |}] in
  let s := example_session "Elm St 1" (fresh 1 (example_inputs 500 0 0)) kept in
  let e := example_env "Elm St 1" (fresh 20 (example_inputs 500 0 0))
             None 200 [] in
  inputs (final_state (run ascii_only e s [])) = inputs s
  /\ transcript (final_state (run ascii_only e s [])) = kept.
Proof.
  intros kept s e.
  destruct (@no_change_no_reset ascii_only e s []
              (current_inputs (fresh 1 (example_inputs 500 0 0)))
              (of_string "Elm St 1") eq_refl eq_refl eq_refl eq_refl)
    as (_ & _ & I & _ & T).
  split; [exact I | exact (T eq_refl eq_refl)].
Defined.

(** ** The chat assistant: claims C6 and C8 *)

(** What the chat stage does with a question, by the endpoint's answer. *)
Lemma chat_assistant_asks e i o s log question :
  clear_chat e = false ->
  read_user_input e = Some question ->
  question <> [] ->
  chat_assistant e i o s log
  = let payload := make_payload e i o question in
    let asked := {| role := user; content := question |} in
    let answered content :=
      {| scroll_to_section := Some chatbot_anchor;
         last_selected_property := last_selected_property s;
         inputs := inputs s;
         messages := Some [asked; {| role := assistant; content := content |}] |} in
    if (status_code (post e payload) =? 200)%Z then
      match choices (post e payload) with
      | reply :: _ => Rerun (answered reply) (log ++ [Post payload])
      | [] =>
          Raised IndexError
            {| scroll_to_section := scroll_to_section s;
               last_selected_property := last_selected_property s;
               inputs := inputs s;
               messages := Some [asked] |} (log ++ [Post payload])
      end
    else Rerun (answered fallback_message) (log ++ [Post payload]).
Proof.
  intros Hc Hq Hne. unfold chat_assistant. unfold_script.
  rewrite Hc, Hq. destruct question as [|c t]; [congruence |].
  cbv zeta.
  destruct (messages s);
    cbn;
    destruct (status_code (post e (make_payload e i o (c :: t))) =? 200)%Z;
    try reflexivity;
    destruct (choices (post e (make_payload e i o (c :: t)))); reflexivity.
Qed.

Lemma show_question_and_answer U s log question answer :
  messages s = Some [{| role := user; content := question |};
                     {| role := assistant; content := answer |}] ->
  show_conversation U s log
  = Next tt s (log ++ Markdown question
                        :: reveal [] (clean_response_text U answer)).
Proof.
  intro Hm. unfold show_conversation. unfold_script. rewrite Hm.
  unfold show_message. cbn. rewrite app_nil_r. reflexivity.
Qed.

(** C6, as the specification states it, fails: with the reply
    ["Hi.There(5)bigBad"] and status 200, the assistant entry of the
    transcript is the reply itself, not its cleaned text. *)
Lemma stored_reply_is_not_cleaned :
  let reply := of_string "Hi.There(5)bigBad" in
  let question := of_string "Is this a good investment?" in
  let w := fresh 1 (example_inputs 500 0 0) in
  let e := example_env "Elm St 1" w (Some question) 200 [reply] in
  let s' := final_state
              (chat_assistant e (example_inputs 500 0 0) example_outputs
                 (example_session "Elm St 1" w []) []) in
  messages s' = Some [{| role := user; content := question |};
                      {| role := assistant; content := reply |}]
  /\ ~ exists U,
         messages s'
         = Some [{| role := user; content := question |};
                 {| role := assistant;
                    content := clean_response_text U reply |}].
Proof.
  cbv zeta. split; [reflexivity |].
  intros [U H]. vm_compute in H. discriminate H.
Qed.

(** C6, amended: on an HTTP 200 response the assistant entry stored in the
    transcript is the first completion's text as received (stored content =
    reply); the clean-up pass is applied when the transcript is shown, the
    text revealed for that entry being [clean_response_text reply]. *)
Theorem ok_reply_stored_raw_shown_clean U e i o s log question reply rest :
  clear_chat e = false ->
  read_user_input e = Some question ->
  question <> [] ->
  status_code (post e (make_payload e i o question)) = 200%Z ->
  choices (post e (make_payload e i o question)) = reply :: rest ->
  exists s',
    chat_assistant e i o s log
    = Rerun s' (log ++ [Post (make_payload e i o question)])
    /\ messages s' = Some [{| role := user; content := question |};
                           {| role := assistant; content := reply |}]
    /\ forall log',
         show_conversation U s' log'
         = Next tt s' (log' ++ Markdown question
                                :: reveal [] (clean_response_text U reply)).
Proof.
  intros Hc Hq Hne Hst Hch.
  rewrite (chat_assistant_asks e i o s log Hc Hq Hne). cbv zeta.
  rewrite Hst, Hch. simpl Z.eqb. cbv iota.
  eexists. split; [reflexivity |]. split; [reflexivity |].
  intro log'. apply show_question_and_answer. reflexivity.
Qed.

Lemma ok_reply_stored_raw_shown_clean_witness :
  let reply := of_string "Hi.There(5)bigBad" in
  let question := of_string "Is this a good investment?" in
  let w := fresh 1 (example_inputs 500 0 0) in
  let e := example_env "Elm St 1" w (Some question) 200 [reply] in
  exists s',
    chat_assistant e (example_inputs 500 0 0) example_outputs
      (example_session "Elm St 1" w []) []
    = Rerun s' [Post (make_payload e (example_inputs 500 0 0)
                        example_outputs question)]
    /\ final_log (show_conversation ascii_only s' [])
       = Markdown question :: reveal [] (of_string "Hi. There ( 5 ) big Bad").
Proof.
  intros reply question w e.
  destruct (@ok_reply_stored_raw_shown_clean ascii_only e
              (example_inputs 500 0 0) example_outputs
              (example_session "Elm St 1" w []) [] question reply []
              eq_refl eq_refl ltac:(discriminate) eq_refl eq_refl)
    as (s' & R & _ & S).
  exists s'. split; [exact R |].
  rewrite (S []). reflexivity.
Defined.

(** C8: for every status other than 200 the chat stage appends one and the
    same fallback message as the assistant entry, whatever the status is,
    and ends the run in a rerun having sent exactly one request. *)
Theorem non_200_gives_fallback e i o s log question :
  clear_chat e = false ->
  read_user_input e = Some question ->
  question <> [] ->
  status_code (post e (make_payload e i o question)) <> 200%Z ->
  chat_assistant e i o s log
  = Rerun {| scroll_to_section := Some chatbot_anchor;
             last_selected_property := last_selected_property s;
             inputs := inputs s;
             messages :=
               Some [{| role := user; content := question |};
                     {| role := assistant; content := fallback_message |}] |}
          (log ++ [Post (make_payload e i o question)]).
Proof.
  intros Hc Hq Hne Hst.
  rewrite (chat_assistant_asks e i o s log Hc Hq Hne). cbv zeta.
  apply Z.eqb_neq in Hst. rewrite Hst. reflexivity.
Qed.

Lemma non_200_gives_fallback_witness :
  let question := of_string "Is this a good investment?" in
  let w := fresh 1 (example_inputs 500 0 0) in
  let asks status :=
    chat_assistant (example_env "Elm St 1" w (Some question) status [])
      (example_inputs 500 0 0) example_outputs
      (example_session "Elm St 1" w []) [] in
  messages (final_state (asks 500%Z))
  = Some [{| role := user; content := question |};
          {| role := assistant; content := fallback_message |}]
  /\ messages (final_state (asks 404%Z)) = messages (final_state (asks 500%Z)).
Proof.
  intros question w asks. unfold asks.
  pose proof (fun status H =>
    @non_200_gives_fallback
      (example_env "Elm St 1" w (Some question) status [])
      (example_inputs 500 0 0) example_outputs
      (example_session "Elm St 1" w []) [] question
      eq_refl eq_refl ltac:(discriminate) H) as F.
  rewrite (F 500%Z) by (simpl; discriminate).
  rewrite (F 404%Z) by (simpl; discriminate).
  split; reflexivity.
Defined.

(* ================================================================== *)
(** * Part III: further properties of the code *)
(* ================================================================== *)

(** ** The clean-up pass as a whole *)

Lemma spaced_same_length s t : spaced s t -> length t <= length s -> t = s.
Proof.
  induction 1 as [| c s t Hst IH | s t Hst IH]; simpl; intro L.
  - reflexivity.
  - f_equal. apply IH. lia.
  - apply spaced_length in Hst. lia.
Qed.

(** A substitution returns its input exactly when nothing matches. *)
Lemma re_sub2_fixed_iff p q s : re_sub2 p q s = s <-> no_match p q s = true.
Proof.
  split; [| apply no_match_fixed].
  intro H.
  assert (L : length (re_sub2 p q s) <= length s) by (rewrite H; lia).
  clear H. revert L.
  induction s as [| a | a b t IHt IHbt] using scan_ind; intro L.
  - reflexivity.
  - reflexivity.
  - change (re_sub2 p q (a :: b :: t))
      with (if p a && q b then a :: space :: b :: re_sub2 p q t
            else a :: re_sub2 p q (b :: t)) in L.
    change (no_match p q (a :: b :: t))
      with (negb (p a && q b) && no_match p q (b :: t)).
    destruct (p a && q b).
    + pose proof (spaced_length (re_sub2_spaced p q t)). simpl in L. lia.
    + simpl in L. rewrite IHbt; [reflexivity | simpl; lia].
Qed.

Lemma patterns_exclude_space U pq :
  In pq (patterns U) -> fst pq space = false /\ snd pq space = false.
Proof.
  simpl. intros [<- | [<- | [<- | [<- | [<- | []]]]]]; split; reflexivity.
Qed.

(** The stages of the pass: each is [spaced] from the one before. *)
Lemma clean_stages U s :
  let s1 := rule_punct U s in
  let s2 := rule_word_paren U s1 in
  let s3 := rule_paren_word U s2 in
  let s4 := rule_lower_upper s3 in
  clean_response_text U s = rule_period_upper s4
  /\ spaced s s1 /\ spaced s1 s2 /\ spaced s2 s3 /\ spaced s3 s4
  /\ spaced s4 (clean_response_text U s).
Proof.
  cbv zeta. repeat split; apply re_sub2_spaced.
Qed.

(** Each of the four later substitutions clears its own matches, and the
    substitutions after it only insert spaces. *)
Lemma clean_clears_later_patterns U s :
  no_match (fun c => is_digit U c || is_word U c) is_paren
    (clean_response_text U s) = true
  /\ no_match is_paren (fun c => is_digit U c || is_word U c)
       (clean_response_text U s) = true
  /\ no_match is_lower is_upper (clean_response_text U s) = true
  /\ no_match is_period is_upper (clean_response_text U s) = true.
Proof.
  destruct (clean_stages U s) as (E & _ & _ & H23 & H34 & H45).
  cbv zeta in *.
  assert (H35 := spaced_trans H34 H45).
  assert (H25 := spaced_trans H23 H35).
  repeat split.
  - eapply no_match_spaced; [reflexivity | reflexivity | exact H25 |].
    apply re_sub2_clears;
      [reflexivity | reflexivity | apply word_paren_disjoint].
  - eapply no_match_spaced; [reflexivity | reflexivity | exact H35 |].
    apply re_sub2_clears;
      [reflexivity | reflexivity | apply paren_word_disjoint].
  - eapply no_match_spaced; [reflexivity | reflexivity | exact H45 |].
    apply re_sub2_clears;
      [reflexivity | reflexivity | apply lower_upper_disjoint].
  - rewrite E. apply re_sub2_clears;
      [reflexivity | reflexivity | apply period_upper_disjoint].
Qed.

(** X1: whatever the input, the cleaned text has no word character next to
    a parenthesis (in either order), no lowercase letter directly followed
    by an uppercase one, and no period directly followed by an uppercase
    letter. *)
Theorem clean_leaves_no_later_match U s :
  no_match (fun c => is_digit U c || is_word U c) is_paren
    (clean_response_text U s) = true
  /\ no_match is_paren (fun c => is_digit U c || is_word U c)
       (clean_response_text U s) = true
  /\ no_match is_lower is_upper (clean_response_text U s) = true
  /\ no_match is_period is_upper (clean_response_text U s) = true.
Proof.
  destruct (clean_clears_later_patterns U s) as (A & B & C & D).
  repeat split; assumption.
Qed.

Lemma clean_fixed_no_match U s :
  clean_response_text U s = s ->
  forall pq, In pq (patterns U) -> no_match (fst pq) (snd pq) s = true.
Proof.
  intro H.
  destruct (clean_stages U s) as (E & H01 & H12 & H23 & H34 & H45).
  cbv zeta in *.
  pose proof (spaced_length H01). pose proof (spaced_length H12).
  pose proof (spaced_length H23). pose proof (spaced_length H34).
  pose proof (spaced_length H45). rewrite H in *.
  assert (E1 : rule_punct U s = s) by (apply spaced_same_length; [auto | lia]).
  rewrite E1 in *.
  assert (E2 : rule_word_paren U s = s)
    by (apply spaced_same_length; [auto | lia]).
  rewrite E2 in *.
  assert (E3 : rule_paren_word U s = s)
    by (apply spaced_same_length; [auto | lia]).
  rewrite E3 in *.
  assert (E4 : rule_lower_upper s = s)
    by (apply spaced_same_length; [auto | lia]).
  rewrite E4 in *.
  simpl. intros pq [<- | [<- | [<- | [<- | [<- | []]]]]];
    apply re_sub2_fixed_iff; simpl; auto.
Qed.

Lemma no_match_clean_fixed U s :
  (forall pq, In pq (patterns U) -> no_match (fst pq) (snd pq) s = true) ->
  clean_response_text U s = s.
Proof.
  intro H. unfold clean_response_text.
  assert (E1 : rule_punct U s = s)
    by (apply no_match_fixed, (H (_, _)); simpl; auto).
  assert (E2 : rule_word_paren U s = s)
    by (apply no_match_fixed, (H (_, _)); simpl; auto).
  assert (E3 : rule_paren_word U s = s)
    by (apply no_match_fixed, (H (_, _)); simpl; auto).
  assert (E4 : rule_lower_upper s = s)
    by (apply no_match_fixed, (H (_, _)); simpl; auto 6).
  assert (E5 : rule_period_upper s = s)
    by (apply no_match_fixed, (H (_, _)); simpl; auto 7).
  rewrite E1, E2, E3, E4, E5. reflexivity.
Qed.

(** X2: the pass returns its input unchanged exactly when none of the five
    patterns matches anywhere in the input. *)
Theorem clean_fixed_iff U s :
  clean_response_text U s = s
  <-> forall pq, In pq (patterns U) -> no_match (fst pq) (snd pq) s = true.
Proof.
  split; [apply clean_fixed_no_match | apply no_match_clean_fixed].
Qed.

Lemma punct_pairs_no_overlap U s :
  no_match is_punct is_punct s = true ->
  no_match is_punct (fun c => negb (is_space U c) && is_punct c) s = true.
Proof.
  induction s as [|a l IH]; [reflexivity |].
  destruct l as [|b t]; [reflexivity |].
  intro H.
  change (negb (is_punct a && is_punct b)
          && no_match is_punct is_punct (b :: t) = true) in H.
  apply andb_true_iff in H. destruct H as [Hab Hrest].
  change (negb (is_punct a && (negb (is_space U b) && is_punct b))
          && no_match is_punct (fun c => negb (is_space U c) && is_punct c)
               (b :: t) = true).
  rewrite (IH Hrest), andb_true_r.
  apply negb_true_iff in Hab. apply negb_true_iff.
  destruct (is_punct a), (is_punct b); simpl in *;
    rewrite ?andb_false_r; congruence.
Qed.

(** X3: on an input in which no character of [.,!?] is directly followed by
    another one, cleaning twice gives the same text as cleaning once; in
    general it does not (["..a"] gives [". .a"], then [". . a"]). *)
Theorem clean_idempotent_on U s :
  (no_match is_punct is_punct s = true ->
   clean_response_text U (clean_response_text U s) = clean_response_text U s)
  /\ clean_response_text U (clean_response_text U (of_string "..a"))
     <> clean_response_text U (of_string "..a").
Proof.
  split; [| vm_compute; discriminate].
  intro H. apply no_match_clean_fixed.
  destruct (clean_clears_later_patterns U s) as (A2 & A3 & A4 & A5).
  assert (A1 : no_match is_punct (fun c => negb (is_space U c))
                 (clean_response_text U s) = true).
  { destruct (clean_stages U s) as (_ & _ & H12 & H23 & H34 & H45).
    cbv zeta in *.
    eapply no_match_spaced;
      [reflexivity | reflexivity
      | exact (spaced_trans H12 (spaced_trans H23 (spaced_trans H34 H45))) |].
    apply re_sub2_no_match; [reflexivity | reflexivity |].
    apply punct_pairs_no_overlap, H. }
  simpl. intros pq [<- | [<- | [<- | [<- | [<- | []]]]]]; assumption.
Qed.

Lemma clean_idempotent_on_witness :
  clean_response_text ascii_only
    (clean_response_text ascii_only (of_string "Hi.There(5)bigBad"))
  = clean_response_text ascii_only (of_string "Hi.There(5)bigBad").
Proof.
  apply (proj1 (clean_idempotent_on ascii_only (of_string "Hi.There(5)bigBad"))).
  reflexivity.
Defined.

(** ** How much longer a cleaned text can be *)

Section Gaps.
Variables p q : char -> bool.
Hypothesis p_space : p space = false.
Hypothesis q_space : q space = false.

Lemma gaps_cons a l :
  gaps (a :: l)
  = match hd_error l with
    | Some b => if negb (a =? space)%N && negb (b =? space)%N then 1 else 0
    | None => 0
    end + gaps l.
Proof.
  destruct l; reflexivity.
Qed.

Lemma class_not_space (f : char -> bool) c :
  f space = false -> f c = true -> negb (c =? space)%N = true.
Proof.
  intros Hs Hc. destruct (N.eqb_spec c space) as [-> |]; [congruence | reflexivity].
Qed.

(** A substitution puts its spaces into gaps: what the text gains in length
    it loses in gaps. *)
Lemma re_sub2_fills_gaps s :
  length (re_sub2 p q s) + gaps (re_sub2 p q s) = length s + gaps s.
Proof.
  induction s as [| a | a b t IHt IHbt] using scan_ind.
  - reflexivity.
  - reflexivity.
  - change (re_sub2 p q (a :: b :: t))
      with (if p a && q b then a :: space :: b :: re_sub2 p q t
            else a :: re_sub2 p q (b :: t)).
    destruct (p a && q b) eqn:M.
    + apply andb_true_iff in M. destruct M as [Ha Hb].
      rewrite (gaps_cons a (space :: _)), (gaps_cons space (b :: _)).
      rewrite (gaps_cons b (re_sub2 p q t)), re_sub2_head.
      rewrite (gaps_cons a (b :: t)), (gaps_cons b t).
      cbn [hd_error length].
      rewrite (class_not_space p a p_space Ha), (class_not_space q b q_space Hb).
      rewrite N.eqb_refl. cbn [negb andb]. rewrite ?andb_false_r. lia.
    + rewrite (gaps_cons a (re_sub2 p q (b :: t))), re_sub2_head.
      rewrite (gaps_cons a (b :: t)). cbn [hd_error length].
      cbn [length] in IHbt. lia.
Qed.

End Gaps.

Lemma gaps_bound s : gaps s <= length s - 1.
Proof.
  induction s as [|a l IH]; [reflexivity |].
  rewrite gaps_cons. destruct l as [|b t]; [reflexivity |].
  cbn [hd_error length] in *.
  destruct (negb (a =? space)%N && negb (b =? space)%N); lia.
Qed.

(** X4: the clean-up pass inserts at most one space into each place where
    two characters other than the space stand side by side: the length of
    the text plus the number of such places stays the same, so a text of
    [n] characters grows to at most [2n - 1]. *)
Theorem clean_length_bound U s :
  length (clean_response_text U s) + gaps (clean_response_text U s)
  = length s + gaps s
  /\ length (clean_response_text U s) <= length s + gaps s
  /\ length (clean_response_text U s) <= 2 * length s - 1.
Proof.
  assert (E : length (clean_response_text U s) + gaps (clean_response_text U s)
              = length s + gaps s).
  { unfold clean_response_text, rule_punct, rule_word_paren, rule_paren_word,
      rule_lower_upper, rule_period_upper.
    rewrite 5 re_sub2_fills_gaps by reflexivity. reflexivity. }
  pose proof (gaps_bound s). repeat split; lia.
Qed.

(** ** ZIP codes, whatever the cell holds *)

Section StripMore.
Variable U : unicode_db.

Lemma lstrip_clear s : clear_start U (lstrip U s).
Proof.
  induction s as [|c t IH]; simpl; [exact I |].
  destruct (is_space U c) eqn:E; [exact IH | exact E].
Qed.

Lemma lstrip_suffix s : exists pre, s = pre ++ lstrip U s.
Proof.
  induction s as [|c t [pre IH]]; simpl.
  - exists []. reflexivity.
  - destruct (is_space U c).
    + exists (c :: pre). simpl. f_equal. exact IH.
    + exists []. reflexivity.
Qed.

Lemma rstrip_keeps_start s : clear_start U s -> clear_start U (rstrip U s).
Proof.
  intro H. unfold rstrip.
  destruct (lstrip_suffix (rev s)) as [pre E].
  destruct (lstrip U (rev s)) as [|c l] eqn:L; [exact I |].
  assert (R : s = rev (c :: l) ++ rev pre).
  { rewrite <- rev_app_distr, <- E, rev_involutive. reflexivity. }
  rewrite R in H. apply clear_start_app in H; [exact H |].
  intro A. apply (f_equal (@length _)) in A.
  rewrite length_rev in A. discriminate A.
Qed.

Lemma strip_clear s :
  clear_start U (strip U s) /\ clear_start U (rev (strip U s)).
Proof.
  unfold strip. split.
  - apply rstrip_keeps_start, lstrip_clear.
  - unfold rstrip. rewrite rev_involutive. apply lstrip_clear.
Qed.

Lemma strip_length s : length (strip U s) <= length s.
Proof.
  unfold strip. pose proof (rstrip_length U (lstrip U s)).
  pose proof (lstrip_length U s). lia.
Qed.

End StripMore.

(** X5: whatever text a cell holds, its loaded ZIP code neither starts nor
    ends with a whitespace character, [strip] leaves it as it is, and it has
    at most [max 5 (length text)] characters. *)
Theorem normalize_zip_stripped U text :
  clear_start U (normalize_zip U text)
  /\ clear_start U (rev (normalize_zip U text))
  /\ strip U (normalize_zip U text) = normalize_zip U text
  /\ length (normalize_zip U text) <= Nat.max 5 (length text).
Proof.
  destruct (strip_clear U (zfill 5 text)) as [A B].
  split; [exact A |]. split; [exact B |]. split.
  - apply strip_fixed_iff. split; assumption.
  - unfold normalize_zip. rewrite <- zfill_length. apply strip_length.
Qed.

(** X6: normalising a text that has no leading or trailing whitespace a
    second time changes nothing; with trailing whitespace it can: ["123 "]
    is loaded as ["0123"], and ["0123"] as ["00123"]. *)
Theorem normalize_zip_idempotent_on U text :
  (strip U text = text ->
   normalize_zip U (normalize_zip U text) = normalize_zip U text)
  /\ normalize_zip U (of_string "123 ") = of_string "0123"
  /\ normalize_zip U (normalize_zip U (of_string "123 ")) = of_string "00123".
Proof.
  split; [| split; reflexivity].
  intro H.
  assert (E : normalize_zip U text = zfill 5 text) by (apply strip_zfill, H).
  rewrite E. unfold normalize_zip at 1.
  rewrite (@zfill_long 5 (zfill 5 text)) by (rewrite zfill_length; lia).
  exact E.
Qed.

Lemma normalize_zip_idempotent_on_witness :
  normalize_zip ascii_only (normalize_zip ascii_only (of_string "7302"))
  = normalize_zip ascii_only (of_string "7302").
Proof.
  apply (proj1 (normalize_zip_idempotent_on ascii_only (of_string "7302"))).
  reflexivity.
Defined.

(** ** Looking a ZIP code up, and the map *)

Lemma dict_get_set V (d : dict V) k v k' :
  dict_get (dict_set d k v) k'
  = if str_eqb k k' then Some v else dict_get d k'.
Proof.
  induction d as [|[k0 v0] d IH]; simpl.
  - reflexivity.
  - destruct (str_eqb k0 k) eqn:E0; simpl.
    + apply str_eqb_eq in E0. rewrite E0.
      destruct (str_eqb k k'); reflexivity.
    + destruct (str_eqb k0 k') eqn:E1; [| exact IH].
      destruct (str_eqb k k') eqn:E2; [| reflexivity].
      apply str_eqb_eq in E1, E2. rewrite E1, E2, str_eqb_refl in E0.
      discriminate E0.
Qed.

Lemma dict_of_pairs_snoc V (kvs : list (py_str * V)) k v :
  dict_of_pairs (kvs ++ [(k, v)]) = dict_set (dict_of_pairs kvs) k v.
Proof.
  unfold dict_of_pairs. rewrite fold_left_app. reflexivity.
Qed.

Lemma zip_lookup_snoc U csv r k :
  dict_get (load_zip_lat_lon U (csv ++ [r])) k
  = if str_eqb (normalize_zip U (zr_ZipCode r)) k
    then Some (Latitude r, Longitude r)
    else dict_get (load_zip_lat_lon U csv) k.
Proof.
  unfold load_zip_lat_lon.
  rewrite map_app. simpl map. rewrite dict_of_pairs_snoc.
  apply dict_get_set.
Qed.

Lemma zip_lookup_none_iff U csv k :
  dict_get (load_zip_lat_lon U csv) k = None
  <-> forall r, In r csv -> normalize_zip U (zr_ZipCode r) <> k.
Proof.
  induction csv as [|r csv IH] using rev_ind.
  - split; [intros _ r [] | reflexivity].
  - rewrite zip_lookup_snoc.
    destruct (str_eqb (normalize_zip U (zr_ZipCode r)) k) eqn:E.
    + apply str_eqb_eq in E. split; [discriminate |].
      intro H. exfalso. apply (H r); [apply in_or_app; right; left; reflexivity
                                      | exact E].
    + rewrite IH. split.
      * intros H x Hx. apply in_app_or in Hx. destruct Hx as [Hx | [<- | []]].
        -- apply H, Hx.
        -- intro A. apply str_eqb_eq in A. congruence.
      * intros H x Hx. apply H, in_or_app. left. exact Hx.
Qed.

(** X7: the lookup built from the ZIP-coordinate file answers, for a key,
    with the coordinates of the last row of the file whose normalised ZIP
    code is that key, and with nothing when there is no such row: it finds
    nothing in the lookup of the empty file, and a row added at the end of
    the file answers for its own key and leaves every other key as before. *)
Theorem zip_lookup_last_row_wins U :
  (forall k, dict_get (load_zip_lat_lon U []) k = None)
  /\ (forall csv r k,
        dict_get (load_zip_lat_lon U (csv ++ [r])) k
        = if str_eqb (normalize_zip U (zr_ZipCode r)) k
          then Some (Latitude r, Longitude r)
          else dict_get (load_zip_lat_lon U csv) k)
  /\ (forall csv k,
        dict_get (load_zip_lat_lon U csv) k = None
        <-> forall r, In r csv -> normalize_zip U (zr_ZipCode r) <> k).
Proof.
  split; [reflexivity |].
  split; [apply zip_lookup_snoc | apply zip_lookup_none_iff].
Qed.

Lemma show_map_cases zip_lookup selected_property selected_data :
  (dict_get zip_lookup (ZipCode selected_data) = None ->
   show_map zip_lookup selected_property selected_data
   = MissingLocation (ZipCode selected_data))
  /\ (forall lat lon,
        dict_get zip_lookup (ZipCode selected_data) = Some (lat, lon) ->
        show_map zip_lookup selected_property selected_data
        = if is_nan lat || is_nan lon
          then MissingLocation (ZipCode selected_data)
          else PropertyLocation lat lon selected_property
                 (ZipCode selected_data)).
Proof.
  unfold show_map, lookup_coords. split.
  - intros ->. reflexivity.
  - intros lat lon ->. simpl fst. simpl snd.
    destruct (is_nan lat), (is_nan lon); reflexivity.
Qed.

Lemma zip_lookup_hit U csv1 r csv2 k :
  normalize_zip U (zr_ZipCode r) = k ->
  (forall x, In x csv2 -> normalize_zip U (zr_ZipCode x) <> k) ->
  dict_get (load_zip_lat_lon U (csv1 ++ r :: csv2)) k
  = Some (Latitude r, Longitude r).
Proof.
  intros Hr. induction csv2 as [|x csv2 IH] using rev_ind; intro Hno.
  - rewrite zip_lookup_snoc, Hr, str_eqb_refl. reflexivity.
  - replace (csv1 ++ r :: csv2 ++ [x]) with ((csv1 ++ r :: csv2) ++ [x])
      by (rewrite <- app_assoc; reflexivity).
    rewrite zip_lookup_snoc.
    destruct (str_eqb (normalize_zip U (zr_ZipCode x)) k) eqn:E.
    + apply str_eqb_eq in E. exfalso.
      apply (Hno x); [apply in_or_app; right; left; reflexivity | exact E].
    + apply IH. intros y Hy. apply Hno, in_or_app. left. exact Hy.
Qed.

(** X8: the property table and the ZIP-coordinate file meet on the
    normalised ZIP code.  For a row of the sheet, as loaded: when no row of
    the file has the same normalised ZIP code the page shows the warning
    naming that code; otherwise it goes by the last such row of the file,
    showing the map at its coordinates when both are numbers and the warning
    when one of them is NaN. *)
Theorem map_follows_last_matching_row U selected_property row :
  let zip := normalize_zip U (ZipCode row) in
  let selected_data := set_ZipCode zip row in
  (forall csv,
      (forall r, In r csv -> normalize_zip U (zr_ZipCode r) <> zip) ->
      show_map (load_zip_lat_lon U csv) selected_property selected_data
      = MissingLocation zip)
  /\ (forall csv1 r csv2,
        normalize_zip U (zr_ZipCode r) = zip ->
        (forall x, In x csv2 -> normalize_zip U (zr_ZipCode x) <> zip) ->
        show_map (load_zip_lat_lon U (csv1 ++ r :: csv2)) selected_property
          selected_data
        = if is_nan (Latitude r) || is_nan (Longitude r)
          then MissingLocation zip
          else PropertyLocation (Latitude r) (Longitude r) selected_property
                 zip).
Proof.
  cbv zeta. split.
  - intros csv Hno.
    apply (proj1 (show_map_cases _ _ (set_ZipCode _ row))).
    apply zip_lookup_none_iff. exact Hno.
  - intros csv1 r csv2 Hr Hno.
    apply (proj2 (show_map_cases _ _ (set_ZipCode _ row))).
    apply zip_lookup_hit; assumption.
Qed.

Lemma map_follows_last_matching_row_witness :
  let old := {| zr_ZipCode := of_string "07302";
                Latitude := 1%float; Longitude := 2%float |} in
  let new := {| zr_ZipCode := of_string "7302";
                Latitude := 40.75%float; Longitude := (-74)%float |} in
  let row := example_row "Elm St 1" "07302" in
  show_map (load_zip_lat_lon ascii_only [old; new]) (of_string "Elm St 1")
    (set_ZipCode (normalize_zip ascii_only (ZipCode row)) row)
  = PropertyLocation 40.75%float (-74)%float (of_string "Elm St 1")
      (of_string "07302")
  /\ show_map (load_zip_lat_lon ascii_only []) (of_string "Elm St 1")
       (set_ZipCode (normalize_zip ascii_only (ZipCode row)) row)
     = MissingLocation (of_string "07302").
Proof.
  intros old new row.
  destruct (map_follows_last_matching_row ascii_only (of_string "Elm St 1") row)
    as [A B].
  split.
  - change [old; new] with ([old] ++ [new]).
    rewrite (B [old] new [] eq_refl); [reflexivity | intros x []].
  - apply (A []). intros r [].
Defined.

(** ** Selecting the property's row *)

Lemma selected_row_cons r table p :
  selected_row (r :: table) p
  = if str_eqb (Property r) p then Ok r else selected_row table p.
Proof.
  unfold selected_row. simpl. destruct (str_eqb (Property r) p); reflexivity.
Qed.

(** X9: the row of the selected property is the first row of the table with
    that name, rows after it being ignored even when they have the same
    name; [IndexError] is raised exactly when no row has the name; and
    selecting from the loaded table gives the first such row of the sheet
    with its ZIP code normalised. *)
Theorem selected_row_first_match U :
  (forall table p,
      selected_row table p = Raise IndexError
      <-> forall r, In r table -> Property r <> p)
  /\ (forall pre r post p,
        (forall x, In x pre -> Property x <> p) ->
        Property r = p ->
        selected_row (pre ++ r :: post) p = Ok r)
  /\ (forall sheet p,
        selected_row (load_data U sheet) p
        = match selected_row sheet p with
          | Ok r => Ok (set_ZipCode (normalize_zip U (ZipCode r)) r)
          | Raise x => Raise x
          end).
Proof.
  split; [| split].
  - intros table p. induction table as [|r table IH].
    + split; [intros _ r [] | reflexivity].
    + rewrite selected_row_cons.
      destruct (str_eqb (Property r) p) eqn:E.
      * apply str_eqb_eq in E. split; [discriminate |].
        intro H. exfalso. apply (H r); [left; reflexivity | exact E].
      * rewrite IH. split.
        -- intros H x [<- | Hx]; [| apply H, Hx].
           intro A. apply str_eqb_eq in A. congruence.
        -- intros H x Hx. apply H. right. exact Hx.
  - intros pre r post p Hpre Hr. induction pre as [|x pre IH]; simpl app.
    + rewrite selected_row_cons, Hr, str_eqb_refl. reflexivity.
    + rewrite selected_row_cons.
      destruct (str_eqb (Property x) p) eqn:E.
      * apply str_eqb_eq in E. exfalso.
        apply (Hpre x); [left; reflexivity | exact E].
      * apply IH. intros y Hy. apply Hpre. right. exact Hy.
  - intros sheet p. induction sheet as [|r sheet IH]; [reflexivity |].
    change (load_data U (r :: sheet))
      with (set_ZipCode (normalize_zip U (ZipCode r)) r :: load_data U sheet).
    rewrite 2 selected_row_cons. simpl Property.
    destruct (str_eqb (Property r) p); [reflexivity | exact IH].
Qed.

Lemma selected_row_first_match_witness :
  selected_row (example_table ++ [example_row "Elm St 1" "99999"])
    (of_string "Elm St 1")
  = Ok (example_row "Elm St 1" "07302").
Proof.
  apply (proj1 (proj2 (selected_row_first_match ascii_only))
           [] (example_row "Elm St 1" "07302")
           (example_row "Oak Ave 2" "10001" :: [example_row "Elm St 1" "99999"])
           (of_string "Elm St 1")).
  - intros x [].
  - reflexivity.
Defined.

(** ** The reveal *)

Lemma writes_reveal full_reply text :
  writes (reveal full_reply text)
  = map (fun n => full_reply ++ firstn n text) (seq 1 (length text)).
Proof.
  revert full_reply. induction text as [|c t IH]; intro full_reply.
  - reflexivity.
  - cbn [reveal writes length]. rewrite IH.
    change (seq 1 (S (length t))) with (1 :: seq 2 (length t)).
    rewrite <- (seq_shift (length t) 1). cbn [map]. rewrite map_map.
    cbn [firstn].
    f_equal. apply map_ext. intro n.
    rewrite <- app_assoc. reflexivity.
Qed.

Lemma last_map_seq A (f : nat -> A) n d :
  last (map f (seq 1 (S n))) d = f (S n).
Proof.
  rewrite seq_S, map_app. simpl map. apply last_last.
Qed.

Lemma last_prefix (text : py_str) :
  last (map (fun n => firstn n text) (seq 1 (length text))) [] = text.
Proof.
  destruct text as [|c t]; [reflexivity |].
  change (length (c :: t)) with (S (length t)).
  rewrite last_map_seq.
  change (S (length t)) with (length (c :: t)). apply firstn_all.
Qed.

(** X10: for an assistant message the placeholder is written once per
    character of the cleaned text, its successive contents being the
    prefixes of that text of lengths 1, 2, ..., so that what stays on the
    page is the whole cleaned text (nothing is written for an empty reply);
    a message of any other role is shown once, as it is. *)
Theorem reveal_ends_with_cleaned_text U msg :
  (role msg = assistant ->
   let text := clean_response_text U (content msg) in
   writes (show_message U msg)
   = map (fun n => firstn n text) (seq 1 (length text))
   /\ length (writes (show_message U msg)) = length text
   /\ last (writes (show_message U msg)) [] = text)
  /\ (role msg <> assistant ->
      show_message U msg = [Markdown (content msg)]).
Proof.
  unfold show_message. split.
  - intros ->. rewrite str_eqb_refl. cbv zeta.
    rewrite writes_reveal. cbn [app].
    split; [reflexivity |].
    split; [rewrite length_map, length_seq; reflexivity | apply last_prefix].
  - intro H. destruct (str_eqb (role msg) assistant) eqn:E; [| reflexivity].
    apply str_eqb_eq in E. contradiction.
Qed.

Lemma reveal_ends_with_cleaned_text_witness :
  last (writes (show_message ascii_only
                  {| role := assistant;
                     content := of_string "Hi.There(5)bigBad" |})) []
  = of_string "Hi. There ( 5 ) big Bad".
Proof.
  destruct (reveal_ends_with_cleaned_text ascii_only
              {| role := assistant; content := of_string "Hi.There(5)bigBad" |})
    as [A _].
  destruct (A eq_refl) as (_ & _ & L).
  rewrite L. reflexivity.
Defined.

(** ** Whole runs *)

Ltac unfold_script_in H :=
  unfold reset_logic, property_reset, inputs_reset, init_scroll,
    append_message, set_messages, set_inputs, set_last_selected_property,
    set_scroll_to_section, Session.bind, has, attr, when, lift, rerun,
    Session.raise, emit, emit_all, ret in H.

(** Case analysis on the innermost test of [H]. *)
Ltac step_in H :=
  match type of H with
  | context [match ?x with _ => _ end] =>
      lazymatch x with
      | context [match _ with _ => _ end] => fail
      | _ => let E := fresh "E" in destruct x eqn:E
      end
  end.

(** Follows a run, in [H], through every test it makes. *)
Ltac follow_in H :=
  repeat (cbn -[calculated make_payload clean_response_text flat_map dict_eq
                str_eqb current_inputs read_user_input Z.eqb filter] in H;
          rewrite ?current_inputs_eq_refl, ?str_eqb_refl in H;
          try discriminate H;
          step_in H).

Ltac follow_run H :=
  unfold run, after_reset, chat_assistant, show_conversation, smooth_scroll
    in H;
  rewrite calculate_total in H; unfold_script_in H; unfold selected_row in H;
  follow_in H.

(** X11: in a run no key of the session state is read before it is set and
    no division has a zero divisor: whatever the session and the readings,
    the run raises neither the [AttributeError] of a missing key nor
    [ZeroDivisionError]. *)
Theorem run_reads_set_keys_and_divides_safely U e s log s' log' :
  run U e s log <> Raised AttributeError s' log'
  /\ run U e s log <> Raised ZeroDivisionError s' log'.
Proof.
  destruct s as [sc la inp ms].
  split; intro H; follow_run H; discriminate H.
Qed.

(** X12: a run that reaches the end of the script leaves every key of the
    session state set, the selected property and the widgets' values
    recorded, and no scroll target pending. *)
Theorem finished_run_leaves_settled_session U e s log s' log' :
  run U e s log = Next tt s' log' ->
  settled e s'
  /\ (exists msgs, messages s' = Some msgs)
  /\ (scroll_to_section s' = Some None
      \/ scroll_to_section s' = Some (Some [])).
Proof.
  intro H. destruct s as [sc la inp ms]. follow_run H.
  all: injection H as <- _.
  all: unfold settled; cbn [last_selected_property inputs messages
                            scroll_to_section].
  all: repeat match goal with
         | Q : negb _ = false |- _ => apply negb_false_iff in Q
         | Q : str_eqb _ _ = true |- _ => apply str_eqb_eq in Q; rewrite <- Q
         end.
  all: repeat split; eauto using current_inputs_eq_refl.
Qed.

Lemma finished_run_leaves_settled_session_witness :
  let e := example_env "Elm St 1" (fresh 1 (example_inputs 500 0 0))
             None 200 [] in
  exists s' log', run ascii_only e new_session [] = Next tt s' log'
                  /\ settled e s'.
Proof.
  intro e.
  destruct (run ascii_only e new_session []) as [[] s' log' | s' log' | x s' log']
    eqn:R; try (vm_compute in R; discriminate R).
  exists s', log'. split; [reflexivity |].
  apply (finished_run_leaves_settled_session ascii_only e new_session [] R).
Defined.

Lemma inputs_reset_first (w : nine pyfloat) s log :
  inputs s = None ->
  inputs_reset w s log
  = Next tt {| scroll_to_section := scroll_to_section s;
               last_selected_property := last_selected_property s;
               inputs := Some (current_inputs w);
               messages := messages s |} log.
Proof.
  intro Hi. unfold_script. rewrite Hi. cbn -[dict_eq current_inputs].
  rewrite current_inputs_eq_refl. reflexivity.
Qed.

Lemma reset_logic_passes_settled e row s log :
  selected_row (data e) (selected_property e) = Ok row ->
  settled e s -> reset_logic e s log = Next row s log.
Proof.
  intros Hrow (Hl & stored & Hi & Hd).
  rewrite reset_logic_unfold.
  erewrite property_reset_same; [| exact Hl | apply str_eqb_refl].
  rewrite Hrow.
  erewrite inputs_reset_same; [reflexivity | exact Hi | exact Hd].
Qed.

(** X13: with the readings of a run unchanged, the reset logic lets a
    settled session pass as it is, and a rerun it causes is followed by at
    most one more: after the rerun the session is settled, or the next run
    reruns once more (the stored inputs having been reset to the empty
    dictionary) and the session is settled then. *)
Theorem reset_logic_settles e row :
  selected_row (data e) (selected_property e) = Ok row ->
  (forall s log, settled e s -> reset_logic e s log = Next row s log)
  /\ (forall s log s1 log1,
        reset_logic e s log = Rerun s1 log1 ->
        log1 = log
        /\ (settled e s1
            \/ exists s2,
                 reset_logic e s1 log1 = Rerun s2 log1 /\ settled e s2)).
Proof.
  intro Hrow. split.
  - intros s log Hs. apply reset_logic_passes_settled; assumption.
  - intros s log s1 log1 H. rewrite reset_logic_unfold, Hrow in H.
    destruct (last_selected_property s) as [last|] eqn:Hl.
    + destruct (str_eqb (selected_property e) last) eqn:He.
      * erewrite property_reset_same in H by eassumption.
        apply str_eqb_eq in He. subst last.
        destruct (inputs s) as [stored|] eqn:Hi.
        -- destruct (dict_eq value_eq (current_inputs (number_inputs e)) stored)
             eqn:Hd.
           ++ erewrite inputs_reset_same in H by eassumption. discriminate H.
           ++ erewrite inputs_reset_changed in H by eassumption.
              injection H as <- <-. split; [reflexivity |]. left. split.
              ** exact Hl.
              ** eexists. split; [reflexivity | apply current_inputs_eq_refl].
        -- rewrite inputs_reset_first in H by exact Hi. discriminate H.
      * erewrite property_reset_changed in H by eassumption.
        injection H as <- <-. split; [reflexivity |]. right.
        eexists. split.
        -- rewrite reset_logic_unfold, Hrow.
           erewrite property_reset_same;
             [| reflexivity | apply str_eqb_refl].
           erewrite inputs_reset_changed; reflexivity.
        -- split; [reflexivity |].
           eexists. split; [reflexivity | apply current_inputs_eq_refl].
    + rewrite property_reset_first in H by exact Hl.
      destruct (inputs s) as [stored|] eqn:Hi.
      * destruct (dict_eq value_eq (current_inputs (number_inputs e)) stored)
          eqn:Hd.
        -- erewrite inputs_reset_same in H;
             [discriminate H | reflexivity | exact Hd].
        -- erewrite inputs_reset_changed in H; [| reflexivity | exact Hd].
           injection H as <- <-. split; [reflexivity |]. left. split.
           ++ reflexivity.
           ++ eexists. split; [reflexivity | apply current_inputs_eq_refl].
      * rewrite inputs_reset_first in H by reflexivity. discriminate H.
Qed.

Lemma reset_logic_settles_witness :
  let s := example_session "Elm St 1" (fresh 1 (example_inputs 500 0 0)) [] in
  let e := example_env "Oak Ave 2" (fresh 20 (example_inputs 500 0 0))
             None 200 [] in
  exists s1 s2,
    reset_logic e s [] = Rerun s1 []
    /\ reset_logic e s1 [] = Rerun s2 []
    /\ reset_logic e s2 [] = Next (example_row "Oak Ave 2" "10001") s2 [].
Proof.
  intros s e.
  destruct (@reset_logic_settles e (example_row "Oak Ave 2" "10001") eq_refl)
    as [A B].
  destruct (reset_logic e s []) as [a s1 l1 | s1 l1 | x s1 l1] eqn:R;
    try (vm_compute in R; discriminate R).
  destruct (B s [] s1 l1 R) as [-> [S1 | (s2 & R2 & S2)]].
  - exfalso. destruct S1 as (_ & stored & I1 & D1).
    vm_compute in R. injection R as <-. simpl in I1.
    injection I1 as <-. discriminate D1.
  - exists s1, s2. split; [reflexivity |]. split; [exact R2 |].
    apply A, S2.
Defined.

(** ** What every session looks like *)

(** X14: in every session a page can reach, the transcript is empty, or one
    question, or one question followed by one answer: a new question
    replaces the whole transcript, so an earlier exchange is never kept. *)
Theorem reachable_latest_exchange_only s :
  reachable s -> latest_exchange_only s.
Proof.
  induction 1 as [| U e s log _ IH]; [exact I |].
  destruct s as [sc la inp ms].
  unfold latest_exchange_only, transcript in *. cbn [messages] in IH.
  destruct (run U e _ log) as [a s' log' | s' log' | x s' log'] eqn:H;
    cbn [final_state]; follow_run H.
  all: injection H; intros; subst.
  all: cbn [messages]; auto.
Qed.

Lemma reachable_latest_exchange_only_witness :
  let e := example_env "Elm St 1" (fresh 1 (example_inputs 500 0 0))
             (Some (of_string "Is this a good investment?")) 200
             [of_string "Hi.There(5)bigBad"] in
  let s1 := final_state (run ascii_only e new_session []) in
  let s2 := final_state (run ascii_only e s1 []) in
  reachable s2 /\ latest_exchange_only s2 /\ length (transcript s2) = 2.
Proof.
  intros e s1 s2.
  assert (R : reachable s2)
    by (apply reachable_run, reachable_run, reachable_new).
  split; [exact R |].
  split; [exact (reachable_latest_exchange_only R) | reflexivity].
Defined.

(** X15: on a session that has neither a recorded property nor a stored
    snapshot, the reset logic records the selected property and the widgets'
    values and goes on without a rerun, touching neither the transcript nor
    the scroll target. *)
Theorem first_reset_logic_records e s log row :
  last_selected_property s = None ->
  inputs s = None ->
  selected_row (data e) (selected_property e) = Ok row ->
  reset_logic e s log
  = Next row {| scroll_to_section := scroll_to_section s;
                last_selected_property := Some (selected_property e);
                inputs := Some (current_inputs (number_inputs e));
                messages := messages s |} log.
Proof.
  intros Hl Hi Hrow. rewrite reset_logic_unfold, Hrow.
  rewrite property_reset_first by exact Hl.
  rewrite inputs_reset_first by exact Hi.
  reflexivity.
Qed.

Lemma first_reset_logic_records_witness :
  let e := example_env "Elm St 1" (fresh 1 (example_inputs 500 0 0))
             None 200 [] in
  settled e (final_state (reset_logic e new_session [])).
Proof.
  intro e.
  rewrite (@first_reset_logic_records e new_session []
             (example_row "Elm St 1" "07302") eq_refl eq_refl eq_refl).
  split; [reflexivity |].
  eexists. split; [reflexivity | apply current_inputs_eq_refl].
Defined.

(** ** Requests *)





(** ** A record without a usable market value *)

(** Dividing by NaN gives NaN. *)
Lemma div_by_nan x : (x / nan)%float = nan.
Proof.
  apply FloatAxioms.Prim2SF_inj. rewrite FloatAxioms.div_spec.
  change (FloatOps.Prim2SF nan) with SpecFloat.S754_nan.
  unfold FloatAxioms.SF64div, SpecFloat.SFdiv.
  destruct (FloatOps.Prim2SF x); reflexivity.
Qed.

(** X17: when the sheet has no market-value column the market-value widget
    is seeded with 0, and when the property's market-value cell is NaN (an
    empty cell) it is seeded with NaN; on the seeds of either record the
    engine returns, raising nothing, with the gross yield and the three NOI
    yields NaN. *)
Theorem missing_market_value_gives_nan_yields row :
  (Market_Value_Of_Asset_LTM row = None ->
   market_value (seed_inputs row) = 0%float)
  /\ (Market_Value_Of_Asset_LTM row = Some nan ->
      market_value (seed_inputs row) = nan)
  /\ (Market_Value_Of_Asset_LTM row = None
      \/ Market_Value_Of_Asset_LTM row = Some nan ->
      exists o,
        calculate (seed_inputs row) = Ok o
        /\ gross_yield_pct o = nan /\ noi_yield_ltm o = nan
        /\ economic_noi_yield_ltm o = nan /\ all_in_noi_yield_ltm o = nan).
Proof.
  assert (E0 : Market_Value_Of_Asset_LTM row = None ->
               market_value (seed_inputs row) = 0%float)
    by (intro H; unfold seed_inputs; cbn [market_value]; rewrite H;
        reflexivity).
  assert (E1 : Market_Value_Of_Asset_LTM row = Some nan ->
               market_value (seed_inputs row) = nan)
    by (intro H; unfold seed_inputs; cbn [market_value]; rewrite H;
        reflexivity).
  split; [exact E0 |]. split; [exact E1 |].
  intro H.
  exists (calculated (seed_inputs row)). split; [apply calculate_total |].
  unfold calculated.
  cbn [gross_yield_pct noi_yield_ltm economic_noi_yield_ltm
       all_in_noi_yield_ltm].
  destruct H as [H | H]; [rewrite (E0 H) | rewrite (E1 H)].
  - repeat split; reflexivity.
  - change (nan =? 0)%float with false. cbv iota.
    rewrite !div_by_nan. repeat split; reflexivity.
Qed.

Lemma missing_market_value_gives_nan_yields_witness :
  let absent := {| Property := of_string "Elm St 1";
                   ZipCode := of_string "07302";
                   Total_HOA_LTM := 2000;
                   Insurance_LTM := 1500;
                   Property_Tax_LTM := 3000;
                   Opex_Total_Expenses_LTM := None;
                   Capex_Grand_Total_LTM := None;
                   Capex_Rec_Total_LTM := None;
                   Estimated_Annual_Rent_LTM := Some 120000%float;
                   Market_Value_Of_Asset_LTM := None;
                   Rental_Collections_Percentage := None |} in
  let empty := {| Property := of_string "Oak Ave 2";
                  ZipCode := of_string "10001";
                  Total_HOA_LTM := 2000;
                  Insurance_LTM := 1500;
                  Property_Tax_LTM := 3000;
                  Opex_Total_Expenses_LTM := Some 500%float;
                  Capex_Grand_Total_LTM := Some 0%float;
                  Capex_Rec_Total_LTM := Some 0%float;
                  Estimated_Annual_Rent_LTM := Some 120000%float;
                  Market_Value_Of_Asset_LTM := Some nan;
                  Rental_Collections_Percentage := Some 90%float |} in
  (exists o, calculate (seed_inputs absent) = Ok o /\ gross_yield_pct o = nan)
  /\ (exists o, calculate (seed_inputs empty) = Ok o /\ noi_yield_ltm o = nan).
Proof.
  intros absent empty. split.
  - destruct (proj2 (proj2 (missing_market_value_gives_nan_yields absent))
                (or_introl eq_refl)) as (o & C & G & _).
    exists o. split; assumption.
  - destruct (proj2 (proj2 (missing_market_value_gives_nan_yields empty))
                (or_intror eq_refl)) as (o & C & _ & G & _).
    exists o. split; assumption.
Defined.

(** ** Runs on a settled session *)

Lemma settled_after_init e s : settled e s -> settled e (after_init s).
Proof.
  destruct (after_init_fields s) as (Fl & Fi & _).
  unfold settled. rewrite Fl, Fi. auto.
Qed.

(** On a settled session a run goes straight to the calculation. *)
Lemma run_settled U e s log row :
  settled e s ->
  selected_row (data e) (selected_property e) = Ok row ->
  run U e s log = after_reset U e (after_init s) log.
Proof.
  intros Hs Hrow. rewrite run_unfold. unfold Session.bind at 1.
  rewrite init_scroll_eq. unfold Session.bind at 1.
  rewrite (reset_logic_passes_settled log Hrow (settled_after_init Hs)).
  reflexivity.
Qed.

(** X18: on a settled session, a run in which Clear Chat was pressed ends in
    a rerun with the transcript empty and the chat anchor as scroll target,
    whatever the transcript held; it sends no request and writes nothing,
    even when a question was asked in the same run. *)
Theorem clear_chat_empties_transcript U e s log row :
  settled e s ->
  selected_row (data e) (selected_property e) = Ok row ->
  clear_chat e = true ->
  exists s',
    run U e s log = Rerun s' log
    /\ messages s' = Some []
    /\ scroll_to_section s' = Some chatbot_anchor
    /\ inputs s' = inputs s
    /\ last_selected_property s' = last_selected_property s.
Proof.
  intros Hs Hrow Hc. rewrite (run_settled U log Hs Hrow).
  destruct (after_init_fields s) as (Fl & Fi & _).
  unfold after_reset. rewrite calculate_total.
  unfold chat_assistant. unfold_script. rewrite Hc.
  destruct (messages (after_init s)); cbn;
    (eexists; split; [reflexivity |]); cbn; auto.
Qed.

Lemma clear_chat_empties_transcript_witness :
  let w := fresh 1 (example_inputs 500 0 0) in
  let s := example_session "Elm St 1" w
             [{| role := user; content := q_noi |};
              {| role := assistant; content := fallback_message |}] in
  let e := {| data := example_table;
              selected_property := of_string "Elm St 1";
              number_inputs := w;
              clear_chat := true;
              evaluate_property := true;
              summarize_noi := false;
              explain_gross_yield := false;
              chat_input := None;
              post := fun _ => {| status_code := 200; choices := [] |} |} in
  transcript (final_state (run ascii_only e s [])) = []
  /\ final_log (run ascii_only e s []) = [].
Proof.
  intros w s e.
  assert (Hs : settled e s).
  { split; [reflexivity |].
    eexists. split; [reflexivity | apply current_inputs_eq_refl]. }
  destruct (@clear_chat_empties_transcript ascii_only e s []
              (example_row "Elm St 1" "07302") Hs eq_refl eq_refl)
    as (s' & R & M & _).
  rewrite R. unfold transcript. cbn [final_state final_log].
  rewrite M. split; reflexivity.
Defined.

(** X19: the run that follows an answered question, on a settled session
    with no new click or question: it shows the question as it is, reveals
    the answer's cleaned text character by character, emits the scroll to
    the chat anchor once and clears the scroll target, leaving the
    transcript as it was. *)
Theorem display_run_shows_exchange U e s log row question answer :
  settled e s ->
  selected_row (data e) (selected_property e) = Ok row ->
  clear_chat e = false ->
  asked e = None ->
  messages s = Some [{| role := user; content := question |};
                     {| role := assistant; content := answer |}] ->
  scroll_to_section s = Some chatbot_anchor ->
  exists s',
    run U e s log
    = Next tt s' (log ++ Markdown question
                         :: reveal [] (clean_response_text U answer)
                         ++ [Scroll (of_string "chatbot")])
    /\ scroll_to_section s' = Some None
    /\ messages s' = messages s
    /\ inputs s' = inputs s
    /\ last_selected_property s' = last_selected_property s.
Proof.
  intros Hs Hrow Hc Ha Hm Hsc. rewrite (run_settled U log Hs Hrow).
  assert (E : after_init s = s) by (unfold after_init; rewrite Hsc; reflexivity).
  rewrite E.
  unfold after_reset. rewrite calculate_total.
  unfold chat_assistant, show_conversation, smooth_scroll. unfold_script.
  rewrite Hm, Hc. cbn -[read_user_input calculated make_payload].
  assert (Q : read_user_input e = None \/ read_user_input e = Some []).
  { unfold asked in Ha.
    destruct (read_user_input e) as [[|c t]|];
      [right; reflexivity | discriminate Ha | left; reflexivity]. }
  destruct Q as [-> | ->]; rewrite Hm; cbn -[clean_response_text];
    rewrite Hsc; cbn -[clean_response_text];
    (eexists; split;
     [rewrite app_nil_r, <- app_assoc; reflexivity | cbn; auto]).
Qed.

Lemma display_run_shows_exchange_witness :
  let w := fresh 1 (example_inputs 500 0 0) in
  let question := of_string "Is this a good investment?" in
  let asking := example_env "Elm St 1" w (Some question) 200
                  [of_string "Hi.There(5)bigBad"] in
  let idle := example_env "Elm St 1" w None 200 [] in
  let s1 := final_state (run ascii_only asking new_session []) in
  final_log (run ascii_only idle s1 [])
  = Markdown question
      :: reveal [] (of_string "Hi. There ( 5 ) big Bad")
      ++ [Scroll (of_string "chatbot")].
Proof.
  intros w question asking idle s1.
  assert (Hs : settled idle s1).
  { split; [reflexivity |]. eexists. split; reflexivity. }
  destruct (@display_run_shows_exchange ascii_only idle s1 []
              (example_row "Elm St 1" "07302") question
              (of_string "Hi.There(5)bigBad")
              Hs eq_refl eq_refl eq_refl eq_refl eq_refl)
    as (s' & R & _).
  rewrite R. reflexivity.
Defined.
